(** * Movie API: the cache-aside protocol of the movies and genres routers

    A shallow embedding of [routes/movies.js], [routes/genres.js] and the two
    Mongoose schemas, with the two external collaborators written out as
    state:

    - the Entity Store (MongoDB through Mongoose): the two collections, in
      insertion order, and the generator of fresh identifiers;
    - the Cache Store (Redis): a finite map from keys to a value and the
      instant at which the value expires.

    Every [await] of the source is one call to a collaborator.  A call is
    recorded in a log, so that "no store access" is a statement about the
    log, and it may throw: the world carries a script that says, call after
    call, whether the driver raises.  A handler is the [try]/[catch] of the
    source around such a sequence of calls.

    What is not in the source is kept small.  Identifiers are opaque
    strings, the store numbers them; a driver that rejects an identifier is
    a call that throws.  Validation and casting follow the two schemas:
    [required], [String], arrays of them and of references.  The version
    key Mongoose adds to documents is left out.  [JSON.parse] and
    [JSON.stringify] are parameters of the handlers; the statements hold
    for any pair of functions, and the concrete runs use the pair of module
    [JSON]. *)

From Stdlib Require Import ZArith Lia Ascii.
From stdpp Require Import base strings gmap list pretty.

Local Open Scope string_scope.
Set Warnings "-register-all".

(** ** JSON values *)

(** Request bodies, response bodies and the documents put in the cache are
    JSON.  Numbers are integers here; an object is the list of its members
    in the order they were written. *)
Inductive json : Type :=
| JNull
| JBool (b : bool)
| JNum (n : Z)
| JStr (s : string)
| JArr (xs : list json)
| JObj (fields : list (string * json)).

(** Member lookup of an object, [o[k]] in JavaScript: [None] stands for
    [undefined].  When a key is written twice the last one wins, as in
    [JSON.parse]. *)
Fixpoint assoc_last (k : string) (fs : list (string * json)) : option json :=
  match fs with
  | [] => None
  | (k', v) :: fs' =>
      match assoc_last k fs' with
      | Some v' => Some v'
      | None => if decide (k = k') then Some v else None
      end
  end.

Definition prop (k : string) (o : json) : option json :=
  match o with
  | JObj fs => assoc_last k fs
  | _ => None
  end.

(** ** Documents of the two collections *)

(** Identifiers are opaque strings assigned by the store. *)
Definition oid := string.

(** [models/Movie.js].  A stored document may lack any of its scalar paths
    ([findByIdAndUpdate] runs no validator), hence the options. *)
Record MovieDoc := mkMovie {
  m_id : oid;
  m_name : option string;
  m_director : option string;
  m_actors : list string;
  m_imbdrating : option string;
  m_image : option string;
  m_genres : list oid
}.

(** [models/Genre.js]: [name] is required, [movies] is the list of
    back-references to movies. *)
Record GenreDoc := mkGenre {
  g_id : oid;
  g_name : string;
  g_movies : list oid
}.

Inductive Collection := MovieC | GenreC.

(** ** The world: both stores, the clock, the fault script and the log *)

Inductive Event :=
| RedisGet (k : string)
| RedisSetex (k : string) (ttl : nat) (v : string)
| RedisDel (k : string)
| DbFind (c : Collection)
| DbFindById (c : Collection) (id : oid)
| DbCreate (c : Collection)
| DbFindByIdAndUpdate (c : Collection) (id : oid)
| DbFindByIdAndDelete (c : Collection) (id : oid)
| DbUpdateMany (c : Collection).

Definition is_store_event (e : Event) : bool :=
  match e with
  | RedisGet _ | RedisSetex _ _ _ | RedisDel _ => false
  | _ => true
  end.

Record World := mkWorld {
  movies : list MovieDoc;
  genres : list GenreDoc;
  next_oid : nat;
  cache : gmap string (string * nat);
  now : nat;
  faults : list bool;
  log : list Event
}.

Definition with_movies (ms : list MovieDoc) (w : World) : World :=
  mkWorld ms (genres w) (next_oid w) (cache w) (now w) (faults w) (log w).
Definition with_genres (gs : list GenreDoc) (w : World) : World :=
  mkWorld (movies w) gs (next_oid w) (cache w) (now w) (faults w) (log w).
Definition with_next_oid (n : nat) (w : World) : World :=
  mkWorld (movies w) (genres w) n (cache w) (now w) (faults w) (log w).
Definition with_cache (c : gmap string (string * nat)) (w : World) : World :=
  mkWorld (movies w) (genres w) (next_oid w) c (now w) (faults w) (log w).
Definition with_now (t : nat) (w : World) : World :=
  mkWorld (movies w) (genres w) (next_oid w) (cache w) t (faults w) (log w).
Definition with_faults (fs : list bool) (w : World) : World :=
  mkWorld (movies w) (genres w) (next_oid w) (cache w) (now w) fs (log w).
Definition with_log (l : list Event) (w : World) : World :=
  mkWorld (movies w) (genres w) (next_oid w) (cache w) (now w) (faults w) l.

(** Time passes between requests, never inside one. *)
Definition advance (d : nat) (w : World) : World := with_now (now w + d) w.

(** The value Redis holds under [k] at the present instant: an entry whose
    expiration instant is reached is gone. *)
Definition live (w : World) (k : string) : option string :=
  match cache w !! k with
  | Some (v, expires) => if decide (now w < expires) then Some v else None
  | None => None
  end.

(** The identifier the store assigns next. *)
Definition fresh_oid (w : World) : oid := pretty (next_oid w).

(** ** Asynchronous computations: state and exceptions *)

Inductive Error := ValidationError | CastError | SyntaxError | DriverError.

Inductive Outcome (A : Type) : Type :=
| Val (a : A)
| Exn (e : Error).
Arguments Val {A} a.
Arguments Exn {A} e.

Definition Async (A : Type) : Type := World → Outcome A * World.

#[global] Instance Async_ret : MRet Async := λ A a w, (Val a, w).
#[global] Instance Async_bind : MBind Async := λ A B f m w,
  match m w with
  | (Val a, w') => f a w'
  | (Exn e, w') => (Exn e, w')
  end.

Definition throw {A : Type} (e : Error) : Async A := λ w, (Exn e, w).
Definition gets {A : Type} (f : World → A) : Async A := λ w, (Val (f w), w).
Definition modify (f : World → World) : Async unit := λ w, (Val tt, f w).

(** One call to a collaborator: it is logged, it consumes one entry of the
    fault script, and it throws when that entry says so.  An exhausted
    script means no further fault. *)
Definition tick (e : Event) (w : World) : World :=
  with_log (log w ++ [e]) (with_faults (tail (faults w)) w).

Definition call (e : Event) : Async unit := λ w,
  match faults w with
  | true :: _ => (Exn DriverError, tick e w)
  | _ => (Val tt, tick e w)
  end.

(** None of the next [n] calls throws. *)
Fixpoint calm (n : nat) (fs : list bool) : bool :=
  match n, fs with
  | S n', b :: fs' => negb b && calm n' fs'
  | _, _ => true
  end.

Arguments calm : simpl never.

(** ** The Redis client ([redis.js]) *)

Definition redis_get (k : string) : Async (option string) :=
  call (RedisGet k);; gets (λ w, live w k).

Definition redis_setex (k : string) (ttl : nat) (v : string) : Async unit :=
  call (RedisSetex k ttl v);;
  modify (λ w, with_cache (<[k := (v, now w + ttl)]> (cache w)) w).

Definition redis_del (k : string) : Async unit :=
  call (RedisDel k);;
  modify (λ w, with_cache (delete k (cache w)) w).

(** [if (cachedData)]: [null] and the empty string are falsy. *)
Definition truthy (cachedData : option string) : option string :=
  match cachedData with
  | Some s => if decide (s = EmptyString) then None else Some s
  | None => None
  end.

(** ** Mongoose: casting a request value to a schema path *)

(** [type: String].  Numbers and booleans are cast through [toString];
    arrays and objects raise a cast error ([None]). *)
Definition cast_String (v : json) : option string :=
  match v with
  | JStr s => Some s
  | JNum n => Some (pretty n)
  | JBool b => Some (if b then "true" else "false")
  | JNull | JArr _ | JObj _ => None
  end.

(** [type: ObjectId]: the identifier is given as a string. *)
Definition cast_ObjectId (v : json) : option oid :=
  match v with
  | JStr s => Some s
  | _ => None
  end.

(** A scalar path: [undefined] and [null] leave the path unset, another
    value is cast; the outer [None] is the cast error. *)
Definition path_scalar (v : option json) : option (option string) :=
  match v with
  | None | Some JNull => Some None
  | Some j => Some <$> cast_String j
  end.

(** An array path: unset is the empty array, a value that is not an array is
    cast as the array of that one value. *)
Definition path_array {A : Type} (cast : json → option A) (v : option json)
  : option (list A) :=
  match v with
  | None | Some JNull => Some []
  | Some (JArr xs) => mapM cast xs
  | Some j => mapM cast [j]
  end.

(** [required: true] on a string: set and not empty. *)
Definition required (s : option string) : option string :=
  match s with
  | Some s => if decide (s = EmptyString) then None else Some s
  | None => None
  end.

Definition required_String (v : json) : option string :=
  required (cast_String v).

(** The document [new Movie({name, director, actors, imbdrating, image,
    genres})] once validated against [movieSchema], before it has an
    identifier; [None] is the validation error. *)
Definition validate_movie (name director actors imbdrating image genres : option json)
  : option (oid → MovieDoc) :=
  name' ← path_scalar name ≫= required;
  director' ← path_scalar director ≫= required;
  actors' ← path_array required_String actors;
  imbdrating' ← path_scalar imbdrating ≫= required;
  image' ← path_scalar image;
  genres' ← path_array cast_ObjectId genres;
  Some (λ id, mkMovie id (Some name') (Some director') actors'
                      (Some imbdrating') image' genres').

(** The document [new Genre({name})] validated against [genreSchema]:
    [movies] is not given and starts as the empty array. *)
Definition validate_genre (name : option json) : option (oid → GenreDoc) :=
  name' ← path_scalar name ≫= required;
  Some (λ id, mkGenre id name' []).

(** The update document of [findByIdAndUpdate]: a path that is [undefined]
    in the request is not part of the update ([None]), the others are cast
    (no validator runs); the outer [None] is the cast error. *)
Record MovieUpdate := mkUpdate {
  u_name : option (option string);
  u_director : option (option string);
  u_actors : option (list string);
  u_imbdrating : option (option string);
  u_image : option (option string);
  u_genres : option (list oid)
}.

Definition set_scalar (v : option json) : option (option (option string)) :=
  match v with
  | None => Some None
  | Some _ => Some <$> path_scalar v
  end.

Definition set_array {A : Type} (cast : json → option A) (v : option json)
  : option (option (list A)) :=
  match v with
  | None => Some None
  | Some _ => Some <$> path_array cast v
  end.

Definition cast_movie_update (name director actors imbdrating image genres : option json)
  : option MovieUpdate :=
  name' ← set_scalar name;
  director' ← set_scalar director;
  actors' ← set_array cast_String actors;
  imbdrating' ← set_scalar imbdrating;
  image' ← set_scalar image;
  genres' ← set_array cast_ObjectId genres;
  Some (mkUpdate name' director' actors' imbdrating' image' genres').

(** The document once the update is applied: the identifier stays. *)
Definition apply_update (u : MovieUpdate) (m : MovieDoc) : MovieDoc :=
  mkMovie (m_id m)
    (default (m_name m) (u_name u))
    (default (m_director m) (u_director u))
    (default (m_actors m) (u_actors u))
    (default (m_imbdrating m) (u_imbdrating u))
    (default (m_image m) (u_image u))
    (default (m_genres m) (u_genres u)).

(** ** Mongoose: the queries the routers issue *)

Definition has_id_m (id : oid) (m : MovieDoc) : bool := bool_decide (m_id m = id).
Definition has_id_g (id : oid) (g : GenreDoc) : bool := bool_decide (g_id g = id).

Definition lookup_movie (id : oid) (w : World) : option MovieDoc :=
  List.find (has_id_m id) (movies w).
Definition lookup_genre (id : oid) (w : World) : option GenreDoc :=
  List.find (has_id_g id) (genres w).

(** Replace, or remove, the first document that satisfies [p]. *)
Fixpoint replace_first {A : Type} (p : A → bool) (y : A) (l : list A) : list A :=
  match l with
  | [] => []
  | x :: l' => if p x then y :: l' else x :: replace_first p y l'
  end.

Fixpoint remove_first {A : Type} (p : A → bool) (l : list A) : list A :=
  match l with
  | [] => []
  | x :: l' => if p x then l' else x :: remove_first p l'
  end.

(** [.populate('genres')] and [.populate('movies')]: each reference is
    replaced by the document it names, a dangling reference is dropped. *)
Definition populate_genres (w : World) (m : MovieDoc) : list GenreDoc :=
  omap (λ id, lookup_genre id w) (m_genres m).
Definition populate_movies (w : World) (g : GenreDoc) : list MovieDoc :=
  omap (λ id, lookup_movie id w) (g_movies g).

Module Movie.

(** [Movie.find()] *)
Definition find : Async (list MovieDoc) :=
  call (DbFind MovieC);; gets movies.

(** [Movie.findById(id).populate('genres')] *)
Definition findById_populate (id : oid) : Async (option (MovieDoc * list GenreDoc)) :=
  call (DbFindById MovieC id);;
  gets (λ w, (λ m, (m, populate_genres w m)) <$> lookup_movie id w).

(** [Movie.create({...})]: validation runs first and raises before the
    store is called. *)
Definition create (name director actors imbdrating image genres : option json)
  : Async MovieDoc :=
  match validate_movie name director actors imbdrating image genres with
  | None => throw ValidationError
  | Some doc =>
      call (DbCreate MovieC);;
      id ← gets fresh_oid;
      modify (λ w, with_next_oid (S (next_oid w))
                     (with_movies (movies w ++ [doc id]) w));;
      mret (doc id)
  end.

(** [Movie.findByIdAndUpdate(id, {...}, { new: true })]: the updated
    document, or [null].  The update is cast before the store is called. *)
Definition findByIdAndUpdate (id : oid)
    (name director actors imbdrating image genres : option json)
  : Async (option MovieDoc) :=
  match cast_movie_update name director actors imbdrating image genres with
  | None => throw CastError
  | Some u =>
      call (DbFindByIdAndUpdate MovieC id);;
      old ← gets (lookup_movie id);
      match old with
      | None => mret None
      | Some old =>
          let m := apply_update u old in
          modify (λ w, with_movies (replace_first (has_id_m id) m (movies w)) w);;
          mret (Some m)
      end
  end.

(** [Movie.findByIdAndDelete(id)]: the deleted document, or [null]. *)
Definition findByIdAndDelete (id : oid) : Async (option MovieDoc) :=
  call (DbFindByIdAndDelete MovieC id);;
  old ← gets (lookup_movie id);
  match old with
  | None => mret None
  | Some m =>
      modify (λ w, with_movies (remove_first (has_id_m id) (movies w)) w);;
      mret (Some m)
  end.

End Movie.

(** The effect of [{ $push: { movies: id } }] on one genre. *)
Definition push_movie (id : oid) (g : GenreDoc) : GenreDoc :=
  mkGenre (g_id g) (g_name g) (g_movies g ++ [id]).

(** The effect of [updateMany] with the filter [{ _id: { $in: ids } }] and
    that update on the genres of the store: every genre whose identifier is
    in [ids] gets [id] appended, once, to its [movies]. *)
Definition fan_out (ids : list oid) (id : oid) (gs : list GenreDoc) : list GenreDoc :=
  (λ g, if bool_decide (g_id g ∈ ids) then push_movie id g else g) <$> gs.

Module Genre.

(** [Genre.find()] *)
Definition find : Async (list GenreDoc) :=
  call (DbFind GenreC);; gets genres.

(** [Genre.find().populate('movies')] *)
Definition find_populate : Async (list (GenreDoc * list MovieDoc)) :=
  call (DbFind GenreC);;
  gets (λ w, (λ g, (g, populate_movies w g)) <$> genres w).

(** [Genre.findById(genreId).populate('movies')] *)
Definition findById_populate (id : oid) : Async (option (GenreDoc * list MovieDoc)) :=
  call (DbFindById GenreC id);;
  gets (λ w, (λ g, (g, populate_movies w g)) <$> lookup_genre id w).

(** [Genre.create({ name })] *)
Definition create (name : option json) : Async GenreDoc :=
  match validate_genre name with
  | None => throw ValidationError
  | Some doc =>
      call (DbCreate GenreC);;
      id ← gets fresh_oid;
      modify (λ w, with_next_oid (S (next_oid w))
                     (with_genres (genres w ++ [doc id]) w));;
      mret (doc id)
  end.

(** [Genre.findByIdAndDelete(genreId)] *)
Definition findByIdAndDelete (id : oid) : Async (option GenreDoc) :=
  call (DbFindByIdAndDelete GenreC id);;
  old ← gets (lookup_genre id);
  match old with
  | None => mret None
  | Some g =>
      modify (λ w, with_genres (remove_first (has_id_g id) (genres w)) w);;
      mret (Some g)
  end.

(** [Genre.updateMany({ _id: { $in: genres } }, { $push: { movies: id } })] *)
Definition updateMany_in_push (genres_in : option json) (id : oid) : Async unit :=
  match path_array cast_ObjectId genres_in with
  | None => throw CastError
  | Some ids =>
      call (DbUpdateMany GenreC);;
      modify (λ w, with_genres (fan_out ids id (genres w)) w)
  end.

End Genre.

(** ** Documents as JSON ([toJSON]) *)

Definition member (k : string) (v : option string) : list (string * json) :=
  match v with
  | Some s => [(k, JStr s)]
  | None => []
  end.

(** A movie, with [genres_field] as the value of its [genres] path: the
    identifiers, or the genre documents after [populate]. *)
Definition movie_json_with (genres_field : list json) (m : MovieDoc) : json :=
  JObj ([("_id", JStr (m_id m))]
        ++ member "name" (m_name m)
        ++ member "director" (m_director m)
        ++ [("actors", JArr (JStr <$> m_actors m))]
        ++ member "imbdrating" (m_imbdrating m)
        ++ member "image" (m_image m)
        ++ [("genres", JArr genres_field)]).

Definition genre_json_with (movies_field : list json) (g : GenreDoc) : json :=
  JObj [("_id", JStr (g_id g)); ("name", JStr (g_name g));
        ("movies", JArr movies_field)].

Definition movie_json (m : MovieDoc) : json :=
  movie_json_with (JStr <$> m_genres m) m.
Definition genre_json (g : GenreDoc) : json :=
  genre_json_with (JStr <$> g_movies g) g.

Definition movie_populated_json (p : MovieDoc * list GenreDoc) : json :=
  movie_json_with (genre_json <$> p.2) p.1.
Definition genre_populated_json (p : GenreDoc * list MovieDoc) : json :=
  genre_json_with (movie_json <$> p.2) p.1.

(** ** Express: responses and handlers *)

Record Response := mkResponse { status : nat; body : json }.

(** [res.json(v)] and [res.status(code).json(v)] *)
Definition res_json (v : json) : Response := mkResponse 200 v.
Definition res_status_json (code : nat) (v : json) : Response := mkResponse code v.

Definition error_body (msg : string) : json := JObj [("error", JStr msg)].
Definition message_body (msg : string) (rest : list (string * json)) : json :=
  JObj (("message", JStr msg) :: rest).

Definition Handler : Type := World → Response * World.

(** [try { ... } catch (err) { ... }] around the body of a handler. *)
Definition try_catch (body : Async Response) (handler : Error → Response) : Handler :=
  λ w, match body w with
       | (Val r, w') => (r, w')
       | (Exn e, w') => (handler e, w')
       end.

Inductive Method := GET | POST | PUT | DELETE.

(** A request below the mount point [/api/]: the method, the segments of the
    path and the parsed JSON body. *)
Record Request := mkRequest {
  method : Method;
  path : list string;
  req_body : json
}.

Section Routers.

(** The two built-ins of the host language the handlers rely on. *)
Variable JSON_parse : string → option json.
Variable JSON_stringify : json → string.

(** [JSON.parse(cachedData)] throws on a text that is not JSON. *)
Definition json_parse (s : string) : Async json :=
  match JSON_parse s with
  | Some v => mret v
  | None => throw SyntaxError
  end.

(** *** [routes/movies.js] *)

(** [router.get('/movies', ...)] *)
Definition get_movies_body : Async Response :=
  let cacheKey := "movies:all" in
  cachedData ← redis_get cacheKey;
  match truthy cachedData with
  | Some cachedData =>
      movies ← json_parse cachedData;
      mret (res_json movies)
  | None =>
      movies ← Movie.find;
      redis_setex cacheKey 3600 (JSON_stringify (JArr (movie_json <$> movies)));;
      mret (res_json (JArr (movie_json <$> movies)))
  end.

Definition get_movies : Handler :=
  try_catch get_movies_body
    (λ _, res_status_json 500 (error_body "Internal Server Error")).

(** [router.get('/movies/:id', ...)] *)
Definition get_movies_id_body (id : string) : Async Response :=
  let cacheKey := "movie:" +:+ id in
  cachedData ← redis_get cacheKey;
  match truthy cachedData with
  | Some cachedData =>
      movie ← json_parse cachedData;
      mret (res_json movie)
  | None =>
      movie ← Movie.findById_populate id;
      match movie with
      | None => mret (res_status_json 404 (error_body "Movie not found"))
      | Some movie =>
          redis_setex cacheKey 3600 (JSON_stringify (movie_populated_json movie));;
          mret (res_json (movie_populated_json movie))
      end
  end.

Definition get_movies_id (id : string) : Handler :=
  try_catch (get_movies_id_body id)
    (λ _, res_status_json 500 (error_body "Internal Server Error")).

(** [router.post('/movies', ...)] *)
Definition post_movies_body (req_body : json) : Async Response :=
  let name := prop "name" req_body in
  let director := prop "director" req_body in
  let actors := prop "actors" req_body in
  let imbdrating := prop "imbdrating" req_body in
  let image := prop "image" req_body in
  let genres := prop "genres" req_body in
  movie ← Movie.create name director actors imbdrating image genres;
  Genre.updateMany_in_push genres (m_id movie);;
  redis_del "movies:all";;
  mret (res_status_json 201
          (message_body "Movie Created" [("movie", movie_json movie)])).

Definition post_movies (req_body : json) : Handler :=
  try_catch (post_movies_body req_body)
    (λ _, res_status_json 400 (error_body "Invalid data")).

(** [router.put('/movies/:id', ...)] *)
Definition put_movies_id_body (id : string) (req_body : json) : Async Response :=
  let name := prop "name" req_body in
  let director := prop "director" req_body in
  let actors := prop "actors" req_body in
  let imbdrating := prop "imbdrating" req_body in
  let image := prop "image" req_body in
  let genres := prop "genres" req_body in
  movie ← Movie.findByIdAndUpdate id name director actors imbdrating image genres;
  match movie with
  | None => mret (res_status_json 404 (error_body "Movie not found"))
  | Some movie =>
      Genre.updateMany_in_push genres (m_id movie);;
      redis_del "movies:all";;
      mret (res_json (movie_json movie))
  end.

Definition put_movies_id (id : string) (req_body : json) : Handler :=
  try_catch (put_movies_id_body id req_body)
    (λ _, res_status_json 500 (error_body "Internal Server Error")).

(** [router.delete('/movies/:id', ...)] *)
Definition delete_movies_id_body (id : string) : Async Response :=
  movie ← Movie.findByIdAndDelete id;
  match movie with
  | None => mret (res_status_json 404 (error_body "Movie not found"))
  | Some _ =>
      redis_del "movies:all";;
      mret (res_json (message_body "Movie deleted" []))
  end.

Definition delete_movies_id (id : string) : Handler :=
  try_catch (delete_movies_id_body id)
    (λ _, res_status_json 500 (error_body "Internal Server Error")).

(** *** [routes/genres.js] *)

(** [router.get('/genres', ...)] *)
Definition get_genres_body : Async Response :=
  let cacheKey := "genres:all" in
  cachedData ← redis_get cacheKey;
  match truthy cachedData with
  | Some cachedData =>
      genres ← json_parse cachedData;
      mret (res_json genres)
  | None =>
      genres ← Genre.find;
      redis_setex cacheKey 3600 (JSON_stringify (JArr (genre_json <$> genres)));;
      mret (res_json (JArr (genre_json <$> genres)))
  end.

Definition get_genres : Handler :=
  try_catch get_genres_body
    (λ _, res_status_json 500 (error_body "Internal Server Error")).

(** [router.get('/genres-movies', ...)] *)
Definition get_genres_movies_body : Async Response :=
  let cacheKey := "genres:all-with-movies" in
  cachedData ← redis_get cacheKey;
  match truthy cachedData with
  | Some cachedData =>
      genres ← json_parse cachedData;
      mret (res_json genres)
  | None =>
      genres ← Genre.find_populate;
      redis_setex cacheKey 3600
        (JSON_stringify (JArr (genre_populated_json <$> genres)));;
      mret (res_json (JArr (genre_populated_json <$> genres)))
  end.

Definition get_genres_movies : Handler :=
  try_catch get_genres_movies_body
    (λ _, res_status_json 500 (error_body "Internal Server Error")).

(** [router.get('/genres/:genreId/movies', ...)] *)
Definition get_genres_genreId_movies_body (genreId : string) : Async Response :=
  let cacheKey := "genre:" +:+ genreId +:+ ":movies" in
  cachedData ← redis_get cacheKey;
  match truthy cachedData with
  | Some cachedData =>
      movies ← json_parse cachedData;
      mret (res_json movies)
  | None =>
      genre ← Genre.findById_populate genreId;
      match genre with
      | None => mret (res_status_json 404 (error_body "Genre not found"))
      | Some genre =>
          let movies := JArr (movie_json <$> genre.2) in
          redis_setex cacheKey 3600 (JSON_stringify movies);;
          mret (res_json movies)
      end
  end.

Definition get_genres_genreId_movies (genreId : string) : Handler :=
  try_catch (get_genres_genreId_movies_body genreId)
    (λ _, res_status_json 500 (error_body "Internal Server Error")).

(** [router.post('/genres', ...)] *)
Definition post_genres_body (req_body : json) : Async Response :=
  let name := prop "name" req_body in
  genre ← Genre.create name;
  let cacheKey := "genre:" +:+ g_id genre in
  redis_setex cacheKey 3600 (JSON_stringify (genre_json genre));;
  mret (res_status_json 201
          (message_body "Genre Created" [("genre", genre_json genre)])).

Definition post_genres (req_body : json) : Handler :=
  try_catch (post_genres_body req_body)
    (λ _, res_status_json 400 (error_body "Invalid data")).

(** [router.delete('/genres/:genreId', ...)] *)
Definition delete_genres_genreId_body (genreId : string) : Async Response :=
  genre ← Genre.findByIdAndDelete genreId;
  match genre with
  | None => mret (res_status_json 404 (error_body "Genre not found"))
  | Some _ =>
      let cacheKey := "genre:" +:+ genreId in
      redis_del cacheKey;;
      mret (res_json (message_body "Genre deleted" []))
  end.

Definition delete_genres_genreId (genreId : string) : Handler :=
  try_catch (delete_genres_genreId_body genreId)
    (λ _, res_status_json 500 (error_body "Internal Server Error")).

(** *** The application: both routers mounted on [/api/] *)

(** The routes each router declares; [None] passes the request on. *)
Definition caught_500 : Error → Response :=
  λ _, res_status_json 500 (error_body "Internal Server Error").
Definition caught_400 : Error → Response :=
  λ _, res_status_json 400 (error_body "Invalid data").

Definition moviesRouter (req : Request) : option (Async Response * (Error → Response)) :=
  match method req, path req with
  | GET, [p] =>
      if decide (p = "movies") then Some (get_movies_body, caught_500) else None
  | GET, [p; id] =>
      if decide (p = "movies") then Some (get_movies_id_body id, caught_500) else None
  | POST, [p] =>
      if decide (p = "movies")
      then Some (post_movies_body (req_body req), caught_400) else None
  | PUT, [p; id] =>
      if decide (p = "movies")
      then Some (put_movies_id_body id (req_body req), caught_500) else None
  | DELETE, [p; id] =>
      if decide (p = "movies") then Some (delete_movies_id_body id, caught_500) else None
  | _, _ => None
  end.

Definition genresRouter (req : Request) : option (Async Response * (Error → Response)) :=
  match method req, path req with
  | GET, [p] =>
      if decide (p = "genres") then Some (get_genres_body, caught_500)
      else if decide (p = "genres-movies") then Some (get_genres_movies_body, caught_500)
      else None
  | GET, [p; genreId; q] =>
      if decide (p = "genres" ∧ q = "movies")
      then Some (get_genres_genreId_movies_body genreId, caught_500) else None
  | POST, [p] =>
      if decide (p = "genres")
      then Some (post_genres_body (req_body req), caught_400) else None
  | DELETE, [p; genreId] =>
      if decide (p = "genres")
      then Some (delete_genres_genreId_body genreId, caught_500) else None
  | _, _ => None
  end.

(** The route that serves a request, if any: the movies router is mounted
    first. *)
Definition route (req : Request) : option (Async Response * (Error → Response)) :=
  match moviesRouter req with
  | Some h => Some h
  | None => genresRouter req
  end.

(** A request no route matches is answered 404 by Express itself, without
    a call to either store. *)
Definition no_route : Response := mkResponse 404 JNull.

Definition app (req : Request) : Handler :=
  match route req with
  | Some (body, handler) => try_catch body handler
  | None => λ w, (no_route, w)
  end.

(** The two create routes, [POST /movies] and [POST /genres]. *)
Definition is_create (req : Request) : bool :=
  match method req, path req with
  | POST, [p] => bool_decide (p = "movies" ∨ p = "genres")
  | _, _ => false
  end.

(** *** The read-through operation of the design, [fetch(key, loader)]

    Written from the description of the protocol, to be compared with the
    five read handlers: look the key up; on a hit return the parsed text;
    on a miss run the loader, one query [ev] of the store that yields
    [load w]; a loader that finds nothing gives [not_found] and leaves the
    cache alone; otherwise the result is stored under the key for 3600
    seconds and returned. *)
Definition fetch (key : string) (ev : Event) (load : World → option json)
    (not_found : Response) : Async Response :=
  cachedData ← redis_get key;
  match truthy cachedData with
  | Some text =>
      v ← json_parse text;
      mret (res_json v)
  | None =>
      r ← (call ev;; gets load);
      match r with
      | None => mret not_found
      | Some v =>
          redis_setex key 3600 (JSON_stringify v);;
          mret (res_json v)
      end
  end.

(** The read endpoints, with the key, the store query and the
    authoritative value of each. *)
Inductive ReadEndpoint :=
| AllMovies
| OneMovie (id : string)
| AllGenres
| AllGenresWithMovies
| MoviesOfGenre (genreId : string).

Definition read_body (e : ReadEndpoint) : Async Response :=
  match e with
  | AllMovies => get_movies_body
  | OneMovie id => get_movies_id_body id
  | AllGenres => get_genres_body
  | AllGenresWithMovies => get_genres_movies_body
  | MoviesOfGenre genreId => get_genres_genreId_movies_body genreId
  end.

Definition read_handler (e : ReadEndpoint) : Handler :=
  try_catch (read_body e)
    (λ _, res_status_json 500 (error_body "Internal Server Error")).

Definition cache_key (e : ReadEndpoint) : string :=
  match e with
  | AllMovies => "movies:all"
  | OneMovie id => "movie:" +:+ id
  | AllGenres => "genres:all"
  | AllGenresWithMovies => "genres:all-with-movies"
  | MoviesOfGenre genreId => "genre:" +:+ genreId +:+ ":movies"
  end.

Definition store_query (e : ReadEndpoint) : Event :=
  match e with
  | AllMovies => DbFind MovieC
  | OneMovie id => DbFindById MovieC id
  | AllGenres | AllGenresWithMovies => DbFind GenreC
  | MoviesOfGenre genreId => DbFindById GenreC genreId
  end.

Definition authoritative (e : ReadEndpoint) (w : World) : option json :=
  match e with
  | AllMovies => Some (JArr (movie_json <$> movies w))
  | OneMovie id =>
      (λ m, movie_populated_json (m, populate_genres w m)) <$> lookup_movie id w
  | AllGenres => Some (JArr (genre_json <$> genres w))
  | AllGenresWithMovies =>
      Some (JArr ((λ g, genre_populated_json (g, populate_movies w g)) <$> genres w))
  | MoviesOfGenre genreId =>
      (λ g, JArr (movie_json <$> populate_movies w g)) <$> lookup_genre genreId w
  end.

Definition not_found_response (e : ReadEndpoint) : Response :=
  match e with
  | MoviesOfGenre _ => res_status_json 404 (error_body "Genre not found")
  | _ => res_status_json 404 (error_body "Movie not found")
  end.

(** The write endpoints of the movies router. *)
Inductive MovieWrite :=
| CreateMovie (req_body : json)
| UpdateMovie (id : string) (req_body : json)
| DeleteMovie (id : string).

Definition write_handler (op : MovieWrite) : Handler :=
  match op with
  | CreateMovie b => post_movies b
  | UpdateMovie id b => put_movies_id id b
  | DeleteMovie id => delete_movies_id id
  end.


(** The worlds the application can be in: it starts with empty stores, and
    between two requests time passes and the drivers may be about to fail
    in any way. *)
Inductive reachable : World → Prop :=
| reachable_start :
    reachable (mkWorld [] [] 0 ∅ 0 [] [])
| reachable_request w d fs req :
    reachable w →
    reachable (app req (with_faults fs (advance d w))).2.

End Routers.

(** ** The built-ins, for running the handlers

    A compact printer and a parser of the texts it prints (and of white
    space between tokens).  The statements below hold for any pair of
    functions; this pair is what the concrete runs use. *)
Module JSON.

Definition dquote : ascii := ascii_of_nat 34.
Definition backslash : ascii := ascii_of_nat 92.

Fixpoint escape (s : string) : string :=
  match s with
  | EmptyString => EmptyString
  | String c s' =>
      if decide (c = dquote ∨ c = backslash)
      then String backslash (String c (escape s'))
      else String c (escape s')
  end.

Definition quote (s : string) : string :=
  String dquote (escape s +:+ String dquote EmptyString).

Fixpoint join (sep : string) (l : list string) : string :=
  match l with
  | [] => EmptyString
  | [x] => x
  | x :: l' => x +:+ sep +:+ join sep l'
  end.

Fixpoint stringify (v : json) : string :=
  match v with
  | JNull => "null"
  | JBool true => "true"
  | JBool false => "false"
  | JNum n => pretty n
  | JStr s => quote s
  | JArr xs => "[" +:+ join "," (map stringify xs) +:+ "]"
  | JObj fs =>
      "{" +:+ join "," (map (λ kv, quote kv.1 +:+ ":" +:+ stringify kv.2) fs) +:+ "}"
  end.

Definition is_space (c : ascii) : bool :=
  bool_decide (c = " "%char ∨ c = ascii_of_nat 9 ∨ c = ascii_of_nat 10 ∨ c = ascii_of_nat 13).

Fixpoint skip_space (s : string) : string :=
  match s with
  | String c s' => if is_space c then skip_space s' else s
  | EmptyString => s
  end.

Definition digit (c : ascii) : option Z :=
  let n := Z.of_nat (nat_of_ascii c) in
  if decide (48 ≤ n ≤ 57)%Z then Some (n - 48)%Z else None.

Fixpoint digits (acc : Z) (s : string) : Z * string :=
  match s with
  | String c s' =>
      match digit c with
      | Some d => digits (10 * acc + d) s'
      | None => (acc, s)
      end
  | EmptyString => (acc, s)
  end.

(** After the opening quote: the text up to the closing quote. *)
Fixpoint string_body (s : string) : option (string * string) :=
  match s with
  | EmptyString => None
  | String c s' =>
      if decide (c = dquote) then Some (EmptyString, s')
      else if decide (c = backslash) then
        match s' with
        | String c' s'' =>
            '(t, rest) ← string_body s''; Some (String c' t, rest)
        | EmptyString => None
        end
      else '(t, rest) ← string_body s'; Some (String c t, rest)
  end.

Definition literal (lit : string) (v : json) (s : string) : option (json * string) :=
  if String.prefix lit s
  then Some (v, String.substring (String.length lit)
                  (String.length s - String.length lit) s)
  else None.

Fixpoint value (fuel : nat) (s : string) : option (json * string) :=
  match fuel with
  | O => None
  | S fuel =>
      match skip_space s with
      | EmptyString => None
      | String c s' as s0 =>
          if decide (c = dquote) then
            '(t, rest) ← string_body s'; Some (JStr t, rest)
          else if decide (c = "["%char) then
            match skip_space s' with
            | String "]" rest => Some (JArr [], rest)
            | _ => '(xs, rest) ← elements fuel s'; Some (JArr xs, rest)
            end
          else if decide (c = "{"%char) then
            match skip_space s' with
            | String "}" rest => Some (JObj [], rest)
            | _ => '(fs, rest) ← members fuel s'; Some (JObj fs, rest)
            end
          else if decide (c = "-"%char) then
            match s' with
            | String d _ =>
                match digit d with
                | Some _ => let '(n, rest) := digits 0 s' in Some (JNum (- n), rest)
                | None => None
                end
            | EmptyString => None
            end
          else if bool_decide (is_Some (digit c)) then
            let '(n, rest) := digits 0 s0 in Some (JNum n, rest)
          else if decide (c = "n"%char) then literal "null" JNull s0
          else if decide (c = "t"%char) then literal "true" (JBool true) s0
          else if decide (c = "f"%char) then literal "false" (JBool false) s0
          else None
      end
  end
with elements (fuel : nat) (s : string) : option (list json * string) :=
  match fuel with
  | O => None
  | S fuel =>
      '(v, rest) ← value fuel s;
      match skip_space rest with
      | String "," rest' => '(vs, rest'') ← elements fuel rest'; Some (v :: vs, rest'')
      | String "]" rest' => Some ([v], rest')
      | _ => None
      end
  end
with members (fuel : nat) (s : string) : option (list (string * json) * string) :=
  match fuel with
  | O => None
  | S fuel =>
      match skip_space s with
      | String c s' =>
          if decide (c = dquote) then
            '(k, rest) ← string_body s';
            match skip_space rest with
            | String ":" rest' =>
                '(v, rest'') ← value fuel rest';
                match skip_space rest'' with
                | String "," rest3 =>
                    '(fs, rest4) ← members fuel rest3; Some ((k, v) :: fs, rest4)
                | String "}" rest3 => Some ([(k, v)], rest3)
                | _ => None
                end
            | _ => None
            end
          else None
      | EmptyString => None
      end
  end.

(** [JSON.parse]: one value, and nothing but white space after it. *)
Definition parse (s : string) : option json :=
  '(v, rest) ← value (2 * String.length s + 2) s;
  match skip_space rest with
  | EmptyString => Some v
  | _ => None
  end.

End JSON.

(** ** What a request asks of the store *)

(** The request members a movie handler reads. *)
Definition movie_of_request (b : json) : option (oid → MovieDoc) :=
  validate_movie (prop "name" b) (prop "director" b) (prop "actors" b)
    (prop "imbdrating" b) (prop "image" b) (prop "genres" b).

Definition in_genres (b : json) : option (list oid) :=
  path_array cast_ObjectId (prop "genres" b).

(** The update a movie handler asks for. *)
Definition update_of_request (b : json) : option MovieUpdate :=
  cast_movie_update (prop "name" b) (prop "director" b) (prop "actors" b)
    (prop "imbdrating" b) (prop "image" b) (prop "genres" b).

(** No response built by the computation has code 400. *)
Definition never_400 (body : Async Response) : Prop :=
  ∀ w r w', body w = (Val r, w') → status r ≠ 400.

(** A handler called again and again, [d] seconds after the previous
    response for each [d] of the list. *)
Fixpoint replay (h : Handler) (delays : list nat) (w : World)
  : list Response * World :=
  match delays with
  | [] => ([], w)
  | d :: delays' =>
      let '(r, w1) := h (advance d w) in
      let '(rs, w2) := replay h delays' w1 in
      (r :: rs, w2)
  end.

(** ** Identifiers the store has assigned *)

(** Every genre carries an identifier the generator has already passed. *)
Definition assigned (n : nat) (gs : list GenreDoc) : Prop :=
  Forall (λ g, ∃ k : nat, k < n ∧ g_id g = pretty k) gs.

Definition genre_ids_assigned (w : World) : Prop :=
  assigned (next_oid w) (genres w).

(** ** What the cache holds *)

(** Every entry was written by the application: its text is a serialised
    value and it expires at most 3600 seconds from now. *)
Definition cache_well_formed (stringify : json → string) (w : World) : Prop :=
  ∀ (k text : string) (expires : nat), cache w !! k = Some (text, expires) →
    (expires ≤ now w + 3600)%nat ∧ ∃ v, text = stringify v.


(** ** Worlds and requests of the concrete runs *)

(** Nothing stored, nothing cached, no fault to come. *)
Definition empty_world : World := mkWorld [] [] 0 ∅ 0 [] [].

Definition alien : MovieDoc :=
  mkMovie "0" (Some "Alien") (Some "Ridley Scott") ["Sigourney Weaver"]
    (Some "8.5") None [].

(** [alien] after [PUT /movies/0] with [{name: "Aliens"}]. *)
Definition aliens : MovieDoc :=
  mkMovie "0" (Some "Aliens") (Some "Ridley Scott") ["Sigourney Weaver"]
    (Some "8.5") None [].

Definition drama : GenreDoc := mkGenre "0" "Drama" [].

(** One movie in the store, an empty cache. *)
Definition one_movie : World := mkWorld [alien] [] 1 ∅ 0 [] [].

(** One genre in the store, an empty cache. *)
Definition one_genre : World := mkWorld [] [drama] 1 ∅ 0 [] [].

(** The empty list of movies cached at time 0, one movie in the store. *)
Definition cached_empty_list : World :=
  mkWorld [alien] [] 1 {["movies:all" := ("[]", 3600)]} 0 [] [].

Definition rename_body : json := JObj [("name", JStr "Aliens")].

Definition blade_runner_body (genre_ids : list json) : json :=
  JObj [("name", JStr "Blade Runner"); ("director", JStr "Ridley Scott");
        ("actors", JArr [JStr "Harrison Ford"]); ("imbdrating", JNum 8);
        ("genres", JArr genre_ids)].

Definition blade_runner (id : oid) (genre_ids : list oid) : MovieDoc :=
  mkMovie id (Some "Blade Runner") (Some "Ridley Scott") ["Harrison Ford"]
    (Some "8") None genre_ids.

Definition drama_body : json := JObj [("name", JStr "Drama")].

(** The same name, and a list of movies the client made up. *)
Definition drama_body_with_movies : json :=
  JObj [("name", JStr "Drama"); ("movies", JArr [JStr "7"; JStr "8"])].

Definition with_script (fs : list bool) (w : World) : World := with_faults fs w.

(** The handlers and the application with the built-ins above. *)
Module Run.
Definition get_movies : Handler := get_movies JSON.parse JSON.stringify.
Definition get_movies_id : string → Handler := get_movies_id JSON.parse JSON.stringify.
Definition get_genres : Handler := get_genres JSON.parse JSON.stringify.
Definition get_genres_movies : Handler := get_genres_movies JSON.parse JSON.stringify.
Definition get_genres_genreId_movies : string → Handler :=
  get_genres_genreId_movies JSON.parse JSON.stringify.
Definition post_genres : json → Handler := post_genres JSON.stringify.
Definition read_handler : ReadEndpoint → Handler :=
  read_handler JSON.parse JSON.stringify.
Definition app : Request → Handler := app JSON.parse JSON.stringify.
End Run.

(** * The protocol, proved *)

Section Protocol.

Variable JSON_parse : string → option json.
Variable JSON_stringify : json → string.

Local Abbreviation fetch_ := (fetch JSON_parse JSON_stringify).
Local Abbreviation read_body := (read_body JSON_parse JSON_stringify).
Local Abbreviation read_handler := (read_handler JSON_parse JSON_stringify).
Local Abbreviation get_movies := (get_movies JSON_parse JSON_stringify).
Local Abbreviation get_movies_id := (get_movies_id JSON_parse JSON_stringify).
Local Abbreviation get_genres := (get_genres JSON_parse JSON_stringify).
Local Abbreviation post_genres := (post_genres JSON_stringify).
Local Abbreviation route := (route JSON_parse JSON_stringify).
Local Abbreviation app := (app JSON_parse JSON_stringify).

(** ** Calls and the fault script *)

Lemma calm_cons n b fs : calm (S n) (b :: fs) = negb b && calm n fs.
Proof. done. Qed.

Lemma calm_nil' n : calm n [] = true.
Proof. by destruct n. Qed.

Lemma call_calm n e w :
  calm (S n) (faults w) = true → call e w = (Val tt, tick e w).
Proof.
  unfold call. by destruct (faults w) as [|[] fs].
Qed.

Lemma calm_tick n e w :
  calm (S n) (faults w) = true → calm n (faults (tick e w)) = true.
Proof.
  simpl. destruct (faults w) as [|b fs]; simpl; [intros _; apply calm_nil'|].
  rewrite calm_cons. by intros [_ ?]%andb_true_iff.
Qed.

Lemma call_fault e w fs :
  faults w = true :: fs → call e w = (Exn DriverError, tick e w).
Proof. unfold call. by intros ->. Qed.

Lemma calm_le (n m : nat) fs : (m ≤ n)%nat → calm n fs = true → calm m fs = true.
Proof.
  revert m fs. induction n as [|n IH]; intros m fs Hle.
  - by replace m with 0 by lia.
  - destruct m as [|m]; [by destruct fs|].
    destruct fs as [|b fs]; [done|]. rewrite !calm_cons.
    intros [-> H]%andb_true_iff. simpl. apply IH; [lia|done].
Qed.

Lemma calm_nil n : calm n [] = true.
Proof. apply calm_nil'. Qed.

(** ** The five read handlers are the read-through operation *)

Lemma read_body_fetch e w :
  read_body e w =
  fetch_ (cache_key e) (store_query e) (authoritative e) (not_found_response e) w.
Proof.
  destruct e; unfold read_body, fetch; simpl;
    unfold get_movies_body, get_movies_id_body, get_genres_body,
      get_genres_movies_body, get_genres_genreId_movies_body,
      Movie.find, Movie.findById_populate, Genre.find, Genre.find_populate,
      Genre.findById_populate, redis_get, mbind, Async_bind, gets;
    destruct (call _ w) as [[[]|err] w1]; try done;
    destruct (truthy _); try done.
  all: destruct (call _ w1) as [[[]|err] w2]; try done.
  - unfold authoritative. by destruct (lookup_movie id w2).
  - unfold authoritative. by rewrite <- list_fmap_compose.
  - unfold authoritative. by destruct (lookup_genre genreId w2).
Qed.

(** ** The read-through operation, case by case *)

(** Hit: the parsed text is returned after the one cache lookup. *)
Lemma fetch_hit key ev load nf w text v :
  live w key = Some text → text ≠ EmptyString → JSON_parse text = Some v →
  calm 1 (faults w) = true →
  fetch_ key ev load nf w = (Val (res_json v), tick (RedisGet key) w).
Proof.
  intros Hlive Hne Hparse Hcalm.
  unfold fetch, redis_get, mbind, Async_bind, gets.
  rewrite (call_calm 0) by done.
  change (live (tick (RedisGet key) w) key) with (live w key).
  rewrite Hlive. unfold truthy. rewrite decide_False by done.
  unfold json_parse. by rewrite Hparse.
Qed.

(** Miss and the loader finds a value: it is stored, then returned. *)
Lemma fetch_miss key ev load nf w v :
  truthy (live w key) = None →
  load (tick ev (tick (RedisGet key) w)) = Some v →
  calm 3 (faults w) = true →
  fetch_ key ev load nf w =
  (Val (res_json v),
   let w3 := tick (RedisSetex key 3600 (JSON_stringify v))
               (tick ev (tick (RedisGet key) w)) in
   with_cache (<[key := (JSON_stringify v, now w + 3600)]> (cache w)) w3).
Proof.
  intros Hmiss Hload Hcalm.
  unfold fetch, redis_get, redis_setex, mbind, Async_bind, gets, modify.
  rewrite (call_calm 2) by done.
  change (live (tick (RedisGet key) w) key) with (live w key).
  rewrite Hmiss.
  pose proof (calm_tick 2 (RedisGet key) w Hcalm) as Hcalm1.
  rewrite (call_calm 1) by done. rewrite Hload.
  pose proof (calm_tick 1 ev _ Hcalm1) as Hcalm2.
  by rewrite (call_calm 0) by done.
Qed.

(** Miss and the loader finds nothing: the cache is not written. *)
Lemma fetch_not_found key ev load nf w :
  truthy (live w key) = None →
  load (tick ev (tick (RedisGet key) w)) = None →
  calm 2 (faults w) = true →
  fetch_ key ev load nf w = (Val nf, tick ev (tick (RedisGet key) w)).
Proof.
  intros Hmiss Hload Hcalm.
  unfold fetch, redis_get, mbind, Async_bind, gets.
  rewrite (call_calm 1) by done.
  change (live (tick (RedisGet key) w) key) with (live w key).
  rewrite Hmiss.
  pose proof (calm_tick 1 (RedisGet key) w Hcalm) as Hcalm1.
  rewrite (call_calm 0) by done. by rewrite Hload.
Qed.

Lemma authoritative_tick e ev w :
  authoritative e (tick ev w) = authoritative e w.
Proof. by destruct e. Qed.

Lemma read_handler_body e w :
  read_handler e w =
  try_catch (fetch_ (cache_key e) (store_query e) (authoritative e)
               (not_found_response e))
    (λ _, res_status_json 500 (error_body "Internal Server Error")) w.
Proof. unfold read_handler, try_catch. by rewrite read_body_fetch. Qed.

(** A hit on a read endpoint. *)
Lemma read_hit e w text v :
  live w (cache_key e) = Some text → text ≠ EmptyString →
  JSON_parse text = Some v → calm 1 (faults w) = true →
  read_handler e w = (res_json v, tick (RedisGet (cache_key e)) w).
Proof.
  intros Hlive Hne Hparse Hcalm.
  rewrite read_handler_body. unfold try_catch.
  by rewrite (fetch_hit _ _ _ _ _ text v).
Qed.

(** A miss on a read endpoint for which the store has a value. *)
Lemma read_miss e w v :
  truthy (live w (cache_key e)) = None → authoritative e w = Some v →
  calm 3 (faults w) = true →
  ∃ w', read_handler e w = (res_json v, w')
    ∧ cache w' = <[cache_key e := (JSON_stringify v, now w + 3600)]> (cache w)
    ∧ live w' (cache_key e) = Some (JSON_stringify v)
    ∧ log w' = (log w ++ [RedisGet (cache_key e); store_query e;
                          RedisSetex (cache_key e) 3600 (JSON_stringify v)])%list
    ∧ movies w' = movies w ∧ genres w' = genres w.
Proof.
  intros Hmiss Hauth Hcalm. eexists.
  rewrite read_handler_body. unfold try_catch.
  rewrite (fetch_miss _ _ _ _ _ v); [|done| |done].
  2: { by rewrite !authoritative_tick. }
  split; [done|]. split; [done|]. split.
  { unfold live. simpl. rewrite lookup_insert_eq.
    rewrite decide_True by lia. done. }
  split; [|done]. simpl. by rewrite <- !app_assoc.
Qed.

(** A miss on a read endpoint for which the store has nothing. *)
Lemma read_not_found e w :
  truthy (live w (cache_key e)) = None → authoritative e w = None →
  calm 2 (faults w) = true →
  read_handler e w =
    (not_found_response e, tick (store_query e) (tick (RedisGet (cache_key e)) w)).
Proof.
  intros Hmiss Hauth Hcalm.
  rewrite read_handler_body. unfold try_catch.
  rewrite fetch_not_found; [done|done| |done].
  by rewrite !authoritative_tick.
Qed.

(** C1.  Every read endpoint follows the read-through protocol.  On a hit
    (a non-empty text is live under the key of the endpoint, and it
    parses) the response is the parsed text, and the only call made is the
    cache lookup: no query of the Entity Store.  On a miss on which the
    store holds a value for the endpoint, the store is queried once, the
    serialised value is written under the key with a 3600 second
    expiration, and the response carries that same value.  The calls are
    assumed not to throw. *)
Theorem C1_read_through (e : ReadEndpoint) (w : World) :
  (∀ text v,
     live w (cache_key e) = Some text → text ≠ EmptyString →
     JSON_parse text = Some v → calm 1 (faults w) = true →
     ∃ w', read_handler e w = (res_json v, w')
       ∧ log w' = (log w ++ [RedisGet (cache_key e)])%list
       ∧ movies w' = movies w ∧ genres w' = genres w ∧ cache w' = cache w)
  ∧ (∀ v,
     truthy (live w (cache_key e)) = None → authoritative e w = Some v →
     calm 3 (faults w) = true →
     ∃ w', read_handler e w = (res_json v, w')
       ∧ cache w' = <[cache_key e := (JSON_stringify v, now w + 3600)]> (cache w)
       ∧ live w' (cache_key e) = Some (JSON_stringify v)
       ∧ log w' = (log w ++ [RedisGet (cache_key e); store_query e;
                             RedisSetex (cache_key e) 3600 (JSON_stringify v)])%list
       ∧ movies w' = movies w ∧ genres w' = genres w).
Proof.
  split.
  - intros text v Hlive Hne Hparse Hcalm. eexists. split.
    + by apply (read_hit e w text v).
    + done.
  - apply read_miss.
Qed.

(** ** The write handlers of the movies router *)

Lemma validate_movie_genres n d a r i g doc :
  validate_movie n d a r i g = Some doc →
  ∃ ids, path_array cast_ObjectId g = Some ids ∧ ∀ id, m_genres (doc id) = ids.
Proof.
  unfold validate_movie. intros H.
  repeat (match type of H with
          | (?x ≫= _) = Some _ => destruct x eqn:?; simpl in H; [|done]
          end).
  injection H as <-. eauto.
Qed.

(** A call either goes through or throws, as the script says. *)
Lemma call_eq e w :
  call e w = (if calm 1 (faults w) then Val tt else Exn DriverError, tick e w).
Proof. unfold call. by destruct (faults w) as [|[] fs]. Qed.

Lemma calm_SS n fs : calm (S (S n)) fs = calm 1 fs && calm (S n) (tail fs).
Proof.
  destruct fs as [|b fs]; simpl; [done|].
  rewrite !calm_cons. by destruct b.
Qed.

Ltac step :=
  rewrite call_eq; simpl;
  match goal with
  | |- context [if calm 1 ?fs then _ else _] => destruct (calm 1 fs) eqn:?
  end; simpl.

Ltac unfold_async :=
  unfold redis_get, redis_setex, redis_del, mbind, Async_bind, gets, modify.

(** [POST /movies] answers 201 exactly when the payload is valid and none
    of its three calls throws; the world it leaves is then this one. *)
Lemma post_movies_created b w :
  status (post_movies b w).1 = 201 →
  ∃ doc ids,
    movie_of_request b = Some doc ∧ in_genres b = Some ids
    ∧ calm 3 (faults w) = true
    ∧ (post_movies b w).1 =
        res_status_json 201
          (message_body "Movie Created" [("movie", movie_json (doc (fresh_oid w)))])
    ∧ (post_movies b w).2 =
        mkWorld (movies w ++ [doc (fresh_oid w)])
          (fan_out ids (m_id (doc (fresh_oid w))) (genres w))
          (S (next_oid w))
          (delete "movies:all" (cache w)) (now w)
          (tail (tail (tail (faults w))))
          (log w ++ [DbCreate MovieC; DbUpdateMany GenreC; RedisDel "movies:all"]).
Proof.
  unfold post_movies, try_catch, post_movies_body, Movie.create, movie_of_request,
    in_genres.
  destruct (validate_movie _ _ _ _ _ _) as [doc|] eqn:Hv; [|done].
  destruct (validate_movie_genres _ _ _ _ _ _ _ Hv) as (ids & Hids & _).
  unfold Genre.updateMany_in_push. rewrite Hids.
  unfold_async. rewrite !calm_SS.
  step; [|done]. step; [|done]. step; [|done].
  intros _. exists doc, ids. repeat split; try done.
  unfold with_cache, tick, fan_out, fresh_oid. simpl.
  by rewrite <- !app_assoc.
Qed.

Lemma post_movies_status b w doc :
  movie_of_request b = Some doc → calm 3 (faults w) = true →
  status (post_movies b w).1 = 201.
Proof.
  unfold post_movies, try_catch, post_movies_body, Movie.create, movie_of_request.
  intros Hv. rewrite Hv.
  destruct (validate_movie_genres _ _ _ _ _ _ _ Hv) as (ids & Hids & _).
  unfold Genre.updateMany_in_push. rewrite Hids.
  unfold_async. rewrite !calm_SS.
  intros [H1 [H2 H3]%andb_true_iff]%andb_true_iff.
  rewrite call_eq, H1. simpl. rewrite call_eq. simpl. rewrite H2. simpl.
  rewrite call_eq. simpl. by rewrite H3.
Qed.

Lemma cast_movie_update_genres n d a r i g u :
  cast_movie_update n d a r i g = Some u →
  ∃ ids, path_array cast_ObjectId g = Some ids.
Proof.
  unfold cast_movie_update. intros H.
  repeat (match type of H with
          | (?x ≫= _) = Some _ => destruct x eqn:?; simpl in H; [|done]
          end).
  destruct g as [j|]; [|by eexists].
  unfold set_array in *. destruct (path_array cast_ObjectId (Some j)); [by eexists|done].
Qed.

Lemma lookup_movie_id id w m : lookup_movie id w = Some m → m_id m = id.
Proof.
  unfold lookup_movie. intros [_ H]%find_some.
  unfold has_id_m in H. by apply bool_decide_eq_true in H.
Qed.

Lemma lookup_genre_id id w g : lookup_genre id w = Some g → g_id g = id.
Proof.
  unfold lookup_genre. intros [_ H]%find_some.
  unfold has_id_g in H. by apply bool_decide_eq_true in H.
Qed.

(** [PUT /movies/:id] answers 200 exactly when the update casts, the movie
    exists and none of its three calls throws. *)
Lemma put_movies_id_updated id b w :
  status (put_movies_id id b w).1 = 200 →
  ∃ u old ids,
    update_of_request b = Some u ∧ lookup_movie id w = Some old
    ∧ in_genres b = Some ids ∧ calm 3 (faults w) = true
    ∧ (put_movies_id id b w).1 = res_json (movie_json (apply_update u old))
    ∧ (put_movies_id id b w).2 =
        mkWorld (replace_first (has_id_m id) (apply_update u old) (movies w))
          (fan_out ids id (genres w))
          (next_oid w)
          (delete "movies:all" (cache w)) (now w)
          (tail (tail (tail (faults w))))
          (log w ++ [DbFindByIdAndUpdate MovieC id; DbUpdateMany GenreC;
                     RedisDel "movies:all"]).
Proof.
  unfold put_movies_id, try_catch, put_movies_id_body, Movie.findByIdAndUpdate,
    update_of_request, in_genres.
  destruct (cast_movie_update _ _ _ _ _ _) as [u|] eqn:Hu; [|done].
  destruct (cast_movie_update_genres _ _ _ _ _ _ _ Hu) as (ids & Hids).
  unfold Genre.updateMany_in_push. rewrite Hids.
  unfold_async. rewrite !calm_SS.
  step; [|done].
  change (lookup_movie id (tick _ w)) with (lookup_movie id w).
  destruct (lookup_movie id w) as [old|] eqn:Hold; simpl; [|done].
  step; [|done]. step; [|done].
  intros _. exists u, old, ids. repeat split; try done.
  unfold with_cache, tick, fan_out. simpl.
  by rewrite <- !app_assoc, (lookup_movie_id _ _ _ Hold).
Qed.

Lemma put_movies_id_status id b w u old :
  update_of_request b = Some u → lookup_movie id w = Some old →
  calm 3 (faults w) = true →
  status (put_movies_id id b w).1 = 200.
Proof.
  unfold put_movies_id, try_catch, put_movies_id_body, Movie.findByIdAndUpdate,
    update_of_request.
  intros Hu Hold. rewrite Hu.
  destruct (cast_movie_update_genres _ _ _ _ _ _ _ Hu) as (ids & Hids).
  unfold Genre.updateMany_in_push. rewrite Hids.
  unfold_async. rewrite !calm_SS.
  intros [H1 [H2 H3]%andb_true_iff]%andb_true_iff.
  rewrite call_eq, H1. simpl.
  change (lookup_movie id (tick _ w)) with (lookup_movie id w). rewrite Hold. simpl.
  rewrite call_eq. simpl. rewrite H2. simpl.
  rewrite call_eq. simpl. by rewrite H3.
Qed.

(** [DELETE /movies/:id] answers 200 exactly when the movie exists and
    neither of its two calls throws. *)
Lemma delete_movies_id_deleted id w :
  status (delete_movies_id id w).1 = 200 →
  ∃ old,
    lookup_movie id w = Some old ∧ calm 2 (faults w) = true
    ∧ (delete_movies_id id w).1 = res_json (message_body "Movie deleted" [])
    ∧ (delete_movies_id id w).2 =
        mkWorld (remove_first (has_id_m id) (movies w)) (genres w) (next_oid w)
          (delete "movies:all" (cache w)) (now w)
          (tail (tail (faults w)))
          (log w ++ [DbFindByIdAndDelete MovieC id; RedisDel "movies:all"]).
Proof.
  unfold delete_movies_id, try_catch, delete_movies_id_body, Movie.findByIdAndDelete.
  unfold_async. rewrite !calm_SS.
  step; [|done].
  change (lookup_movie id (tick _ w)) with (lookup_movie id w).
  destruct (lookup_movie id w) as [old|] eqn:Hold; simpl; [|done].
  step; [|done].
  intros _. exists old. repeat split; try done.
  unfold with_cache, tick. simpl. by rewrite <- !app_assoc.
Qed.

Lemma delete_movies_id_status id w old :
  lookup_movie id w = Some old → calm 2 (faults w) = true →
  status (delete_movies_id id w).1 = 200.
Proof.
  unfold delete_movies_id, try_catch, delete_movies_id_body, Movie.findByIdAndDelete.
  intros Hold. unfold_async. rewrite !calm_SS. intros [H1 H2]%andb_true_iff.
  rewrite call_eq, H1. simpl.
  change (lookup_movie id (tick _ w)) with (lookup_movie id w). rewrite Hold. simpl.
  rewrite call_eq. simpl. by rewrite H2.
Qed.



(** ** Relation maintenance *)

Lemma validate_movie_id n d a r i g doc id :
  validate_movie n d a r i g = Some doc → m_id (doc id) = id.
Proof.
  unfold validate_movie. intros H.
  repeat (match type of H with
          | (?x ≫= _) = Some _ => destruct x eqn:?; simpl in H; [|done]
          end).
  by injection H as <-.
Qed.

Lemma fan_out_lookup ids id gs (i : nat) g :
  gs !! i = Some g →
  fan_out ids id gs !! i =
    Some (if bool_decide (g_id g ∈ ids)
          then mkGenre (g_id g) (g_name g) (g_movies g ++ [id]) else g).
Proof. intros H. unfold fan_out. by rewrite list_lookup_fmap, H. Qed.

(** C6.  When [POST /movies] creates a movie, or [PUT /movies/:id] updates
    one, with the genre identifiers [ids] in the request, every genre of
    the store whose identifier is among [ids] gets the identifier of the
    movie appended to its [movies], whether or not it is there already;
    every other genre is left as it is, whether or not it lists the
    movie; no genre is added or removed. *)
Theorem C6_genre_fan_out (w : World) (b : json) (ids : list oid) :
  in_genres b = Some ids →
  (status (post_movies b w).1 = 201 →
     (∃ m, movies (post_movies b w).2 = (movies w ++ [m])%list
           ∧ m_id m = fresh_oid w ∧ m_genres m = ids)
     ∧ length (genres (post_movies b w).2) = length (genres w)
     ∧ ∀ (i : nat) g, genres w !! i = Some g →
         genres (post_movies b w).2 !! i =
           Some (if bool_decide (g_id g ∈ ids)
                 then mkGenre (g_id g) (g_name g) (g_movies g ++ [fresh_oid w])%list
                 else g))
  ∧ (∀ id, status (put_movies_id id b w).1 = 200 →
     length (genres (put_movies_id id b w).2) = length (genres w)
     ∧ ∀ (i : nat) g, genres w !! i = Some g →
         genres (put_movies_id id b w).2 !! i =
           Some (if bool_decide (g_id g ∈ ids)
                 then mkGenre (g_id g) (g_name g) (g_movies g ++ [id])%list
                 else g)).
Proof.
  intros Hids. split.
  - intros Hst.
    destruct (post_movies_created _ _ Hst) as (doc & ids' & Hdoc & Hids' & _ & _ & ->).
    rewrite Hids in Hids'. injection Hids' as <-. simpl.
    pose proof (validate_movie_id _ _ _ _ _ _ _ (fresh_oid w) Hdoc) as Hid.
    destruct (validate_movie_genres _ _ _ _ _ _ _ Hdoc) as (ids' & Hids' & Hg).
    unfold in_genres in Hids. rewrite Hids in Hids'. injection Hids' as <-.
    split; [by exists (doc (fresh_oid w))|].
    split; [unfold fan_out; by rewrite length_fmap|].
    intros i g Hg'. rewrite Hid. by apply fan_out_lookup.
  - intros id Hst.
    destruct (put_movies_id_updated _ _ _ Hst)
      as (u & old & ids' & _ & _ & Hids' & _ & _ & ->).
    rewrite Hids in Hids'. injection Hids' as <-. simpl.
    split; [unfold fan_out; by rewrite length_fmap|].
    intros i g Hg'. by apply fan_out_lookup.
Qed.

(** ** Failure of the fan-out *)

Lemma post_movies_fan_out_fails b w doc fs :
  movie_of_request b = Some doc → faults w = false :: true :: fs →
  post_movies b w =
    (res_status_json 400 (error_body "Invalid data"),
     mkWorld (movies w ++ [doc (fresh_oid w)]) (genres w) (S (next_oid w))
       (cache w) (now w) fs
       (log w ++ [DbCreate MovieC; DbUpdateMany GenreC])).
Proof.
  unfold post_movies, try_catch, post_movies_body, Movie.create, movie_of_request.
  intros Hv Hf. rewrite Hv.
  destruct (validate_movie_genres _ _ _ _ _ _ _ Hv) as (ids & Hids & _).
  unfold Genre.updateMany_in_push. rewrite Hids.
  unfold_async. rewrite call_eq, Hf. simpl. rewrite call_eq. simpl. rewrite Hf. simpl.
  unfold tick, fresh_oid. simpl. rewrite Hf. simpl. by rewrite <- !app_assoc.
Qed.

(** C9.  When [POST /movies] creates the movie in the store and the
    fan-out on genres then throws, the handler answers 400 "Invalid data"
    and makes no further call: [movies:all] is not deleted.  The movie is
    in the store, and an entry that was under [movies:all] before the
    request is served by [GET /movies], without a query of the store, for
    as long as it has not expired; once it has, the answer is the content
    of the store, the new movie included. *)
Theorem C9_create_then_fan_out_failure (b : json) (w : World)
    (doc : oid → MovieDoc) (fs : list bool) :
  movie_of_request b = Some doc → faults w = false :: true :: fs →
  let w' := (post_movies b w).2 in
  (post_movies b w).1 = res_status_json 400 (error_body "Invalid data")
  ∧ movies w' = (movies w ++ [doc (fresh_oid w)])%list
  ∧ cache w' = cache w
  ∧ log w' = (log w ++ [DbCreate MovieC; DbUpdateMany GenreC])%list
  ∧ (∀ d text v,
       live (advance d w) "movies:all" = Some text → text ≠ EmptyString →
       JSON_parse text = Some v → calm 1 fs = true →
       ∃ w'', get_movies (advance d w') = (res_json v, w'')
         ∧ log w'' = (log w' ++ [RedisGet "movies:all"])%list
         ∧ movies w'' = (movies w ++ [doc (fresh_oid w)])%list)
  ∧ (∀ d,
       live (advance d w) "movies:all" = None → calm 3 fs = true →
       (get_movies (advance d w')).1 =
         res_json (JArr (movie_json <$> (movies w ++ [doc (fresh_oid w)])%list))).
Proof.
  intros Hv Hf. rewrite (post_movies_fan_out_fails b w doc fs Hv Hf). simpl.
  repeat split; try done.
  - intros d text v Hlive Hne Hparse Hcalm. eexists. split.
    + by apply (read_hit AllMovies _ text v).
    + done.
  - intros d Hlive Hcalm.
    match goal with |- (get_movies ?x).1 = _ => set (w1 := x) end.
    destruct (read_miss AllMovies w1 (JArr (movie_json <$> movies w1)))
      as (w'' & Hrun & _); [|done|done|].
    + simpl. change (live w1 "movies:all") with (live (advance d w) "movies:all").
      by rewrite Hlive.
    + change (get_movies w1) with (read_handler AllMovies w1). by rewrite Hrun.
Qed.

(** ** Creating a genre *)

Lemma validate_genre_inv name doc :
  validate_genre name = Some doc →
  ∃ s, path_scalar name ≫= required = Some s ∧ doc = (λ id, mkGenre id s []).
Proof.
  unfold validate_genre. destruct (path_scalar name ≫= required) as [s|]; [|done].
  simpl. intros [= <-]. by exists s.
Qed.

(** [POST /genres] answers 201 exactly when the name is valid and neither
    of its two calls throws. *)
Lemma post_genres_created b w :
  status (post_genres b w).1 = 201 →
  ∃ s, let g := mkGenre (fresh_oid w) s [] in
    path_scalar (prop "name" b) ≫= required = Some s
    ∧ calm 2 (faults w) = true
    ∧ (post_genres b w).1 =
        res_status_json 201 (message_body "Genre Created" [("genre", genre_json g)])
    ∧ (post_genres b w).2 =
        mkWorld (movies w) (genres w ++ [g]) (S (next_oid w))
          (<["genre:" +:+ fresh_oid w := (JSON_stringify (genre_json g), now w + 3600)]>
             (cache w))
          (now w) (tail (tail (faults w)))
          (log w ++ [DbCreate GenreC;
                     RedisSetex ("genre:" +:+ fresh_oid w) 3600
                       (JSON_stringify (genre_json g))]).
Proof.
  unfold post_genres, try_catch, post_genres_body, Genre.create.
  destruct (validate_genre _) as [doc|] eqn:Hv; [|done].
  destruct (validate_genre_inv _ _ Hv) as (s & Hs & ->).
  unfold_async. rewrite !calm_SS.
  step; [|done]. step; [|done].
  intros _. exists s. repeat split; try done.
  unfold with_cache, tick, fresh_oid. simpl. by rewrite <- !app_assoc.
Qed.


(** Whatever the request and the faults, the genres of the store are as
    before or have one more document, which lists no movie. *)
Lemma post_genres_store b w :
  genres (post_genres b w).2 = genres w
  ∨ ∃ s, genres (post_genres b w).2 = (genres w ++ [mkGenre (fresh_oid w) s []])%list.
Proof.
  unfold post_genres, try_catch, post_genres_body, Genre.create.
  destruct (validate_genre _) as [doc|] eqn:Hv; [|by left].
  destruct (validate_genre_inv _ _ Hv) as (s & Hs & ->).
  unfold_async.
  step; [|by left]. step; right; by exists s.
Qed.

(** C10.  [POST /genres] reads the member [name] of the request body and
    nothing else: two bodies with the same [name] have the same effect and
    the same response.  The document it creates lists no movie, whatever
    the body says, and on success the text cached under [genre:<id>] is
    the serialisation of that document, for 3600 seconds. *)
Theorem C10_post_genres_reads_name_only (w : World) :
  (∀ b1 b2, prop "name" b1 = prop "name" b2 → post_genres b1 w = post_genres b2 w)
  ∧ (∀ b, genres (post_genres b w).2 = genres w
          ∨ ∃ s, genres (post_genres b w).2
                 = (genres w ++ [mkGenre (fresh_oid w) s []])%list)
  ∧ (∀ b, status (post_genres b w).1 = 201 →
       ∃ s, let g := mkGenre (fresh_oid w) s [] in
         path_scalar (prop "name" b) ≫= required = Some s
         ∧ genres (post_genres b w).2 = (genres w ++ [g])%list
         ∧ g_movies g = []
         ∧ cache (post_genres b w).2 !! ("genre:" +:+ g_id g)
           = Some (JSON_stringify (genre_json g), now w + 3600)
         ∧ (post_genres b w).1 =
             res_status_json 201
               (message_body "Genre Created" [("genre", genre_json g)])).
Proof.
  split; [|split].
  - intros b1 b2 H. unfold post_genres, post_genres_body. by rewrite H.
  - intros b. apply post_genres_store.
  - intros b Hst. destruct (post_genres_created _ _ Hst) as (s & Hs & _ & Hr & Hw).
    exists s. simpl in *. rewrite Hw, Hr. simpl.
    repeat split; try done. apply lookup_insert_eq.
Qed.

(** ** Not found is not cached *)



(** ** Which failures give which code *)

Lemma fetch_never_400 key ev load nf :
  status nf ≠ 400 → never_400 (fetch_ key ev load nf).
Proof.
  intros Hnf w r w'. unfold fetch, json_parse. unfold_async.
  step; [|done].
  destruct (truthy _) as [text|].
  - destruct (JSON_parse text); simpl; [|done]. by intros [= <- _].
  - step; [|done]. destruct (load _); simpl.
    + step; [|done]. by intros [= <- _].
    + by intros [= <- _].
Qed.

Lemma read_body_never_400 e : never_400 (read_body e).
Proof.
  intros w r w'. rewrite read_body_fetch. apply fetch_never_400. by destruct e.
Qed.

Lemma put_movies_id_never_400 id b : never_400 (put_movies_id_body id b).
Proof.
  intros w r w'. unfold put_movies_id_body, Movie.findByIdAndUpdate.
  destruct (cast_movie_update _ _ _ _ _ _) as [u|] eqn:Hu; [|done].
  destruct (cast_movie_update_genres _ _ _ _ _ _ _ Hu) as (ids & Hids).
  unfold Genre.updateMany_in_push. rewrite Hids. unfold_async.
  step; [|done].
  destruct (lookup_movie id _) as [old|]; simpl; [|by intros [= <- _]].
  step; [|done]. step; [|done]. by intros [= <- _].
Qed.

Lemma delete_movies_id_never_400 id : never_400 (delete_movies_id_body id).
Proof.
  intros w r w'. unfold delete_movies_id_body, Movie.findByIdAndDelete. unfold_async.
  step; [|done].
  destruct (lookup_movie id _) as [old|]; simpl; [|by intros [= <- _]].
  step; [|done]. by intros [= <- _].
Qed.

Lemma delete_genres_genreId_never_400 id : never_400 (delete_genres_genreId_body id).
Proof.
  intros w r w'. unfold delete_genres_genreId_body, Genre.findByIdAndDelete.
  unfold_async.
  step; [|done].
  destruct (lookup_genre id _) as [old|]; simpl; [|by intros [= <- _]].
  step; [|done]. by intros [= <- _].
Qed.

(** What the router gives for a request: a create route with the handler
    that answers 400, or another route, whose body never builds a 400,
    with the handler that answers 500. *)
Lemma route_cases req body handler :
  route req = Some (body, handler) →
  (is_create req = true ∧ handler = caught_400)
  ∨ (is_create req = false ∧ handler = caught_500 ∧ never_400 body).
Proof.
  unfold route, moviesRouter, genresRouter, is_create.
  destruct req as [m p b]. simpl.
  destruct m, p as [|p1 [|p2 [|p3 [|p4 p]]]]; simpl; try done;
    repeat case_decide; try done; intros [= <- <-];
    try (left; split; [by apply bool_decide_eq_true; auto|done]);
    right; (split; [done|split; [done|]]).
  - apply (read_body_never_400 AllMovies).
  - apply (read_body_never_400 AllGenres).
  - apply (read_body_never_400 AllGenresWithMovies).
  - apply (read_body_never_400 (OneMovie p2)).
  - apply (read_body_never_400 (MoviesOfGenre p2)).
  - apply put_movies_id_never_400.
  - apply delete_movies_id_never_400.
  - apply delete_genres_genreId_never_400.
Qed.

(** C7, as the code has it.  A 400 comes from the two create routes
    only; there it is the answer to every exception, an invalid payload as
    well as a failure of the store or of the cache.  On every other route
    an exception, a failure of the store or of the cache included, is
    answered 500.  In both cases the request stops at the call that
    threw. *)
Theorem C7_failure_codes (req : Request) (w : World) :
  (status (app req w).1 = 400 → is_create req = true)
  ∧ (∀ body handler err w',
       route req = Some (body, handler) → body w = (Exn err, w') →
       app req w =
         (if is_create req
          then res_status_json 400 (error_body "Invalid data")
          else res_status_json 500 (error_body "Internal Server Error"), w')).
Proof.
  split.
  - unfold app. destruct (route req) as [[body handler]|] eqn:Hr; [|done].
    destruct (route_cases _ _ _ Hr) as [[? _]|(_ & -> & Hn)]; [done|].
    unfold try_catch. destruct (body w) as [[r|err] w'] eqn:Hb; simpl; [|done].
    intros H. by destruct (Hn _ _ _ Hb).
  - intros body handler err w' Hr Hb. unfold app. rewrite Hr.
    unfold try_catch. rewrite Hb.
    by destruct (route_cases _ _ _ Hr) as [[-> ->]|(-> & -> & _)].
Qed.

(** ** The life of a genre *)

Lemma find_snoc {A} (p : A → bool) (l : list A) (x : A) :
  List.find p l = None → p x = true → List.find p (l ++ [x]) = Some x.
Proof.
  intros Hl Hx. induction l as [|y l IH]; simpl in *; [by rewrite Hx|].
  destruct (p y); [done|]. by apply IH.
Qed.

Lemma remove_first_snoc {A} (p : A → bool) (l : list A) (x : A) :
  List.find p l = None → p x = true → remove_first p (l ++ [x]) = l.
Proof.
  intros Hl Hx. induction l as [|y l IH]; simpl in *; [by rewrite Hx|].
  destruct (p y); [done|]. by rewrite IH.
Qed.






(** ** What the write handlers leave in the cache *)

Lemma movie_write_cache op w :
  cache (write_handler op w).2 = cache w
  ∨ cache (write_handler op w).2 = delete "movies:all" (cache w).
Proof.
  destruct op as [b|id b|id]; simpl.
  - unfold post_movies, try_catch, post_movies_body, Movie.create.
    destruct (validate_movie _ _ _ _ _ _) as [doc|] eqn:Hv; [|by left].
    destruct (validate_movie_genres _ _ _ _ _ _ _ Hv) as (ids & Hids & _).
    unfold Genre.updateMany_in_push. rewrite Hids. unfold_async.
    step; [|by left]. step; [|by left]. step; [by right|by left].
  - unfold put_movies_id, try_catch, put_movies_id_body, Movie.findByIdAndUpdate.
    destruct (cast_movie_update _ _ _ _ _ _) as [u|] eqn:Hu; [|by left].
    destruct (cast_movie_update_genres _ _ _ _ _ _ _ Hu) as (ids & Hids).
    unfold Genre.updateMany_in_push. rewrite Hids. unfold_async.
    step; [|by left].
    destruct (lookup_movie id _) as [old|]; simpl; [|by left].
    step; [|by left]. step; [by right|by left].
  - unfold delete_movies_id, try_catch, delete_movies_id_body,
      Movie.findByIdAndDelete. unfold_async.
    step; [|by left].
    destruct (lookup_movie id _) as [old|]; simpl; [|by left].
    step; [by right|by left].
Qed.

(** No write of the movies router touches the entry of a single movie. *)
Lemma movie_key_survives op w id :
  cache (write_handler op w).2 !! ("movie:" +:+ id) = cache w !! ("movie:" +:+ id).
Proof.
  destruct (movie_write_cache op w) as [->| ->]; [done|].
  apply lookup_delete_ne. simpl. by intros [=].
Qed.

Lemma movie_write_now op w : now (write_handler op w).2 = now w.
Proof.
  destruct op as [b|id b|id]; simpl.
  - unfold post_movies, try_catch, post_movies_body, Movie.create.
    destruct (validate_movie _ _ _ _ _ _) as [doc|] eqn:Hv; [|done].
    destruct (validate_movie_genres _ _ _ _ _ _ _ Hv) as (ids & Hids & _).
    unfold Genre.updateMany_in_push. rewrite Hids. unfold_async.
    step; [|done]. step; [|done]. by step.
  - unfold put_movies_id, try_catch, put_movies_id_body, Movie.findByIdAndUpdate.
    destruct (cast_movie_update _ _ _ _ _ _) as [u|] eqn:Hu; [|done].
    destruct (cast_movie_update_genres _ _ _ _ _ _ _ Hu) as (ids & Hids).
    unfold Genre.updateMany_in_push. rewrite Hids. unfold_async.
    step; [|done].
    destruct (lookup_movie id _) as [old|]; simpl; [|done].
    step; [|done]. by step.
  - unfold delete_movies_id, try_catch, delete_movies_id_body,
      Movie.findByIdAndDelete. unfold_async.
    step; [|done].
    destruct (lookup_movie id _) as [old|]; simpl; [|done]. by step.
Qed.

(** Hence a snapshot of a movie cached before an update or a deletion of
    that movie is what [GET /movies/:id] answers after it. *)
Lemma stale_movie_served op w id text v :
  live w ("movie:" +:+ id) = Some text → text ≠ EmptyString →
  JSON_parse text = Some v →
  calm 1 (faults (write_handler op w).2) = true →
  (get_movies_id id (write_handler op w).2).1 = res_json v.
Proof.
  intros Hlive Hne Hparse Hcalm.
  change (get_movies_id id ?x) with (read_handler (OneMovie id) x).
  rewrite (read_hit (OneMovie id) _ text v); try done.
  unfold live in *. simpl. by rewrite movie_key_survives, movie_write_now.
Qed.

Lemma genre_write_cache w :
  (∀ b, cache (post_genres b w).2 = cache w
        ∨ ∃ v, cache (post_genres b w).2 = <["genre:" +:+ fresh_oid w := v]> (cache w))
  ∧ (∀ id, cache (delete_genres_genreId id w).2 = cache w
        ∨ cache (delete_genres_genreId id w).2 = delete ("genre:" +:+ id) (cache w)).
Proof.
  split.
  - intros b. unfold post_genres, try_catch, post_genres_body, Genre.create.
    destruct (validate_genre _) as [doc|] eqn:Hv; [|by left].
    destruct (validate_genre_inv _ _ Hv) as (s & Hs & ->). unfold_async.
    step; [|by left]. step; [right; by eexists|by left].
  - intros id. unfold delete_genres_genreId, try_catch, delete_genres_genreId_body,
      Genre.findByIdAndDelete. unfold_async.
    step; [|by left].
    destruct (lookup_genre id _) as [old|]; simpl; [|by left].
    step; [by right|by left].
Qed.

(** No write of the genres router touches the two collection entries. *)
Lemma genre_collection_keys_survive w k :
  k = "genres:all" ∨ k = "genres:all-with-movies" →
  (∀ b, cache (post_genres b w).2 !! k = cache w !! k)
  ∧ (∀ id, cache (delete_genres_genreId id w).2 !! k = cache w !! k).
Proof.
  intros Hk. destruct (genre_write_cache w) as [Hp Hd]. split.
  - intros b. destruct (Hp b) as [->|[v ->]]; [done|].
    apply lookup_insert_ne. destruct Hk as [-> | ->]; simpl; by intros [=].
  - intros id. destruct (Hd id) as [->| ->]; [done|].
    apply lookup_delete_ne. destruct Hk as [-> | ->]; simpl; by intros [=].
Qed.

(** ** The generated identifier is new *)

Lemma assigned_mono (n n' : nat) gs : (n ≤ n')%nat → assigned n gs → assigned n' gs.
Proof.
  intros Hle H. eapply Forall_impl; [exact H|].
  intros g (k & Hk & Hg). exists k. split; [lia|done].
Qed.

Lemma assigned_snoc n gs s l :
  assigned n gs → assigned (S n) (gs ++ [mkGenre (pretty n) s l]).
Proof.
  intros H. apply Forall_app. split; [by apply (assigned_mono n); [lia|]|].
  constructor; [|done]. exists n. split; [lia|done].
Qed.

Lemma assigned_remove_first n p gs : assigned n gs → assigned n (remove_first p gs).
Proof.
  induction 1 as [|g gs Hg Hgs IH]; simpl; [constructor|].
  destruct (p g); [done|]. by constructor.
Qed.

Lemma assigned_fan_out n ids id gs : assigned n gs → assigned n (fan_out ids id gs).
Proof.
  unfold assigned, fan_out. rewrite Forall_fmap. intros H.
  eapply Forall_impl; [exact H|].
  intros g Hg. simpl. by destruct (bool_decide _).
Qed.

Lemma assigned_fresh w :
  genre_ids_assigned w → lookup_genre (fresh_oid w) w = None.
Proof.
  unfold genre_ids_assigned, lookup_genre, fresh_oid. intros H.
  destruct (List.find _ _) as [g|] eqn:Hfind; [|done].
  apply find_some in Hfind as [Hin Hid%bool_decide_eq_true].
  apply list_elem_of_In in Hin.
  destruct (proj1 (Forall_forall _ _) H g Hin) as (k & Hk & Hg).
  rewrite Hg in Hid. apply (inj pretty) in Hid. lia.
Qed.

Create HintDb assigned.
Local Hint Resolve assigned_snoc assigned_remove_first assigned_fan_out : assigned.

Ltac leaf :=
  unfold genre_ids_assigned, fresh_oid in *; simpl;
  first [ done
        | by auto with assigned
        | by eapply assigned_mono; [|eauto with assigned]; lia ].

Lemma fetch_assigned key ev load nf handler w :
  genre_ids_assigned w →
  genre_ids_assigned (try_catch (fetch_ key ev load nf) handler w).2.
Proof.
  intros H. unfold try_catch, fetch, json_parse. unfold_async.
  step; [|leaf].
  destruct (truthy _) as [text|].
  - destruct (JSON_parse text); simpl; leaf.
  - step; [|leaf]. destruct (load _); simpl; [|leaf]. step; leaf.
Qed.

Lemma read_handler_assigned e w :
  genre_ids_assigned w → genre_ids_assigned (read_handler e w).2.
Proof. rewrite read_handler_body. apply fetch_assigned. Qed.

Lemma post_movies_assigned b w :
  genre_ids_assigned w → genre_ids_assigned (post_movies b w).2.
Proof.
  intros H. unfold post_movies, try_catch, post_movies_body, Movie.create.
  destruct (validate_movie _ _ _ _ _ _) as [doc|] eqn:Hv; [|leaf].
  destruct (validate_movie_genres _ _ _ _ _ _ _ Hv) as (ids & Hids & _).
  unfold Genre.updateMany_in_push. rewrite Hids. unfold_async.
  step; [|leaf]. step; [|leaf]. step; leaf.
Qed.

Lemma put_movies_id_assigned id b w :
  genre_ids_assigned w → genre_ids_assigned (put_movies_id id b w).2.
Proof.
  intros H. unfold put_movies_id, try_catch, put_movies_id_body,
    Movie.findByIdAndUpdate.
  destruct (cast_movie_update _ _ _ _ _ _) as [u|] eqn:Hu; [|leaf].
  destruct (cast_movie_update_genres _ _ _ _ _ _ _ Hu) as (ids & Hids).
  unfold Genre.updateMany_in_push. rewrite Hids. unfold_async.
  step; [|leaf].
  destruct (lookup_movie id _) as [old|]; simpl; [|leaf].
  step; [|leaf]. step; leaf.
Qed.

Lemma delete_movies_id_assigned id w :
  genre_ids_assigned w → genre_ids_assigned (delete_movies_id id w).2.
Proof.
  intros H. unfold delete_movies_id, try_catch, delete_movies_id_body,
    Movie.findByIdAndDelete. unfold_async.
  step; [|leaf].
  destruct (lookup_movie id _) as [old|]; simpl; [|leaf]. step; leaf.
Qed.

Lemma post_genres_assigned b w :
  genre_ids_assigned w → genre_ids_assigned (post_genres b w).2.
Proof.
  intros H. unfold post_genres, try_catch, post_genres_body, Genre.create.
  destruct (validate_genre _) as [doc|] eqn:Hv; [|leaf].
  destruct (validate_genre_inv _ _ Hv) as (s & Hs & ->). unfold_async.
  step; [|leaf]. step; leaf.
Qed.

Lemma delete_genres_genreId_assigned id w :
  genre_ids_assigned w → genre_ids_assigned (delete_genres_genreId id w).2.
Proof.
  intros H. unfold delete_genres_genreId, try_catch, delete_genres_genreId_body,
    Genre.findByIdAndDelete. unfold_async.
  step; [|leaf].
  destruct (lookup_genre id _) as [old|]; simpl; [|leaf]. step; leaf.
Qed.

Lemma app_assigned req w :
  genre_ids_assigned w → genre_ids_assigned (app req w).2.
Proof.
  intros H. unfold app, route, moviesRouter, genresRouter.
  destruct req as [m p b]. simpl.
  destruct m, p as [|p1 [|p2 [|p3 [|p4 p]]]]; simpl; try done;
    repeat case_decide; try done.
  - by apply (read_handler_assigned AllMovies).
  - by apply (read_handler_assigned AllGenres).
  - by apply (read_handler_assigned AllGenresWithMovies).
  - by apply (read_handler_assigned (OneMovie p2)).
  - by apply (read_handler_assigned (MoviesOfGenre p2)).
  - by apply post_movies_assigned.
  - by apply post_genres_assigned.
  - by apply put_movies_id_assigned.
  - by apply delete_movies_id_assigned.
  - by apply delete_genres_genreId_assigned.
Qed.

(** In every world the application can be in, the identifier the store
    generates next names no genre. *)
Lemma reachable_fresh w :
  reachable JSON_parse JSON_stringify w → lookup_genre (fresh_oid w) w = None.
Proof.
  intros H. apply assigned_fresh. induction H as [|w d fs req _ IH].
  - constructor.
  - by apply app_assigned.
Qed.

(** * More of the two routers *)

(** ** What a read request does, in every outcome *)

Lemma fetch_trace key ev load nf w :
  let w' := (fetch_ key ev load nf w).2 in
  movies w' = movies w ∧ genres w' = genres w ∧ next_oid w' = next_oid w
  ∧ now w' = now w
  ∧ ((log w' = (log w ++ [RedisGet key])%list ∧ cache w' = cache w)
     ∨ (log w' = (log w ++ [RedisGet key; ev])%list ∧ cache w' = cache w)
     ∨ ∃ v, log w' = (log w ++ [RedisGet key; ev;
                                RedisSetex key 3600 (JSON_stringify v)])%list
            ∧ (cache w' = cache w
               ∨ cache w' = <[key := (JSON_stringify v, now w + 3600)]> (cache w))).
Proof.
  unfold fetch, json_parse. unfold_async. cbv zeta.
  step.
  2: { repeat split; try done. by left. }
  destruct (truthy _) as [text|].
  { destruct (JSON_parse text); simpl; (repeat split; try done); by left. }
  step.
  2: { repeat split; try done. right; left. by rewrite <- !app_assoc. }
  destruct (load _) as [v|]; simpl.
  2: { repeat split; try done. right; left. by rewrite <- !app_assoc. }
  step; (repeat split; try done); right; right; exists v;
    rewrite <- !app_assoc; (split; [done|]); [by right|by left].
Qed.

(** X1.  A read request, whatever its outcome, leaves both collections and
    the identifier generator as they were.  Its first call is the lookup of
    its own key; the store is queried at most once, and only after that
    lookup; the cache is written at most once, after the query, under that
    same key and for 3600 seconds. *)
Theorem read_request_trace (e : ReadEndpoint) (w : World) :
  let w' := (read_handler e w).2 in
  movies w' = movies w ∧ genres w' = genres w ∧ next_oid w' = next_oid w
  ∧ ((log w' = (log w ++ [RedisGet (cache_key e)])%list ∧ cache w' = cache w)
     ∨ (log w' = (log w ++ [RedisGet (cache_key e); store_query e])%list
        ∧ cache w' = cache w)
     ∨ ∃ v, log w' = (log w ++ [RedisGet (cache_key e); store_query e;
                                RedisSetex (cache_key e) 3600 (JSON_stringify v)])%list
            ∧ (cache w' = cache w
               ∨ cache w' = <[cache_key e := (JSON_stringify v, now w + 3600)]> (cache w))).
Proof.
  cbv zeta. rewrite read_handler_body.
  pose proof (fetch_trace (cache_key e) (store_query e) (authoritative e)
                (not_found_response e) w) as H. cbv zeta in H.
  unfold try_catch. destruct (fetch_ _ _ _ _ w) as [[r|err] w']; simpl in *; tauto.
Qed.

(** ** The codes each route can answer *)

Lemma fetch_codes key ev load nf handler w :
  (∀ err, status (handler err) = 500) →
  let r := (try_catch (fetch_ key ev load nf) handler w).1 in
  status r = 200 ∨ status r = 500
  ∨ (r = nf ∧ load (tick ev (tick (RedisGet key) w)) = None).
Proof.
  intros Hh. unfold try_catch, fetch, json_parse. unfold_async. cbv zeta.
  step; [|by right; left].
  destruct (truthy _) as [text|].
  { destruct (JSON_parse text); simpl; [by left|by right; left]. }
  step; [|by right; left].
  destruct (load _) as [v|] eqn:Hload; simpl; [|by right; right].
  step; [by left|by right; left].
Qed.

(** X2.  The codes of the ten routes.  The three collection reads answer
    200 or 500, never 404; the two reads by identifier answer 200, 404 or
    500, and 404 only when the store has no record; the two creations answer
    201 or 400; the update and the two deletions answer 200, 404 or 500. *)
Theorem route_status_codes (w : World) :
  (∀ e, let r := (read_handler e w).1 in
        status r = 200 ∨ status r = 500
        ∨ (status r = 404 ∧ authoritative e w = None
           ∧ ∃ id, e = OneMovie id ∨ e = MoviesOfGenre id))
  ∧ (∀ b, status (post_movies b w).1 = 201 ∨ status (post_movies b w).1 = 400)
  ∧ (∀ b, status (post_genres b w).1 = 201 ∨ status (post_genres b w).1 = 400)
  ∧ (∀ id b, let r := (put_movies_id id b w).1 in
             status r = 200 ∨ status r = 500
             ∨ (status r = 404 ∧ lookup_movie id w = None))
  ∧ (∀ id, let r := (delete_movies_id id w).1 in
           status r = 200 ∨ status r = 500
           ∨ (status r = 404 ∧ lookup_movie id w = None))
  ∧ (∀ id, let r := (delete_genres_genreId id w).1 in
           status r = 200 ∨ status r = 500
           ∨ (status r = 404 ∧ lookup_genre id w = None)).
Proof.
  repeat split.
  - intros e. cbv zeta. rewrite read_handler_body.
    destruct (fetch_codes (cache_key e) (store_query e) (authoritative e)
                (not_found_response e)
                (λ _, res_status_json 500 (error_body "Internal Server Error"))
                w (λ _, eq_refl)) as [H|[H|[-> Hnone]]];
      [by left|by right; left|].
    right; right. rewrite !authoritative_tick in Hnone.
    destruct e as [|id| | |id]; try done; (split; [done|split; [done|]]);
      exists id; [by left|by right].
  - intros b. unfold post_movies, try_catch, post_movies_body, Movie.create.
    destruct (validate_movie _ _ _ _ _ _) as [doc|] eqn:Hv; [|by right].
    destruct (validate_movie_genres _ _ _ _ _ _ _ Hv) as (ids & Hids & _).
    unfold Genre.updateMany_in_push. rewrite Hids. unfold_async.
    step; [|by right]. step; [|by right]. step; [by left|by right].
  - intros b. unfold post_genres, try_catch, post_genres_body, Genre.create.
    destruct (validate_genre _) as [doc|] eqn:Hv; [|by right].
    destruct (validate_genre_inv _ _ Hv) as (s & Hs & ->). unfold_async.
    step; [|by right]. step; [by left|by right].
  - intros id b. cbv zeta.
    unfold put_movies_id, try_catch, put_movies_id_body, Movie.findByIdAndUpdate.
    destruct (cast_movie_update _ _ _ _ _ _) as [u|] eqn:Hu; [|by right; left].
    destruct (cast_movie_update_genres _ _ _ _ _ _ _ Hu) as (ids & Hids).
    unfold Genre.updateMany_in_push. rewrite Hids. unfold_async.
    step; [|by right; left].
    change (lookup_movie id (tick _ w)) with (lookup_movie id w).
    destruct (lookup_movie id w) as [old|]; simpl; [|by right; right].
    step; [|by right; left]. step; [by left|by right; left].
  - intros id. cbv zeta.
    unfold delete_movies_id, try_catch, delete_movies_id_body,
      Movie.findByIdAndDelete. unfold_async.
    step; [|by right; left].
    change (lookup_movie id (tick _ w)) with (lookup_movie id w).
    destruct (lookup_movie id w) as [old|]; simpl; [|by right; right].
    step; [by left|by right; left].
  - intros id. cbv zeta.
    unfold delete_genres_genreId, try_catch, delete_genres_genreId_body,
      Genre.findByIdAndDelete. unfold_async.
    step; [|by right; left].
    change (lookup_genre id (tick _ w)) with (lookup_genre id w).
    destruct (lookup_genre id w) as [old|]; simpl; [|by right; right].
    step; [by left|by right; left].
Qed.

(** ** Failures on the read path *)

Lemma fetch_lookup_fails key ev load nf w fs :
  faults w = true :: fs →
  fetch_ key ev load nf w = (Exn DriverError, tick (RedisGet key) w).
Proof.
  intros Hf. unfold fetch. unfold_async. by rewrite (call_fault _ _ fs).
Qed.

Lemma fetch_500_cache key ev load nf handler w :
  status nf ≠ 500 →
  status (try_catch (fetch_ key ev load nf) handler w).1 = 500 →
  cache (try_catch (fetch_ key ev load nf) handler w).2 = cache w.
Proof.
  intros Hnf. unfold try_catch, fetch, json_parse. unfold_async.
  step; [|done].
  destruct (truthy _) as [text|].
  { by destruct (JSON_parse text). }
  step; [|done].
  destruct (load _) as [v|]; simpl; [|done].
  by step.
Qed.

(** X3.  A failure of the cache is not taken for a miss.  When the lookup
    throws, every read route answers 500 at once: the store is not queried.
    And whenever a read route answers 500, for whatever reason, the cache is
    as it was before the request. *)
Theorem read_failure_is_500 (e : ReadEndpoint) (w : World) :
  (∀ fs, faults w = true :: fs →
     read_handler e w =
       (res_status_json 500 (error_body "Internal Server Error"),
        tick (RedisGet (cache_key e)) w))
  ∧ (status (read_handler e w).1 = 500 → cache (read_handler e w).2 = cache w).
Proof.
  split.
  - intros fs Hf. rewrite read_handler_body. unfold try_catch.
    by rewrite (fetch_lookup_fails _ _ _ _ _ fs).
  - rewrite read_handler_body. apply fetch_500_cache. by destruct e.
Qed.

Lemma fetch_unparseable key ev load nf w text :
  live w key = Some text → text ≠ EmptyString → JSON_parse text = None →
  calm 1 (faults w) = true →
  fetch_ key ev load nf w = (Exn SyntaxError, tick (RedisGet key) w).
Proof.
  intros Hlive Hne Hparse Hcalm.
  unfold fetch, redis_get, mbind, Async_bind, gets.
  rewrite (call_calm 0) by done.
  change (live (tick (RedisGet key) w) key) with (live w key).
  rewrite Hlive. unfold truthy. rewrite decide_False by done.
  unfold json_parse. by rewrite Hparse.
Qed.

(** X4.  A cached text that is not JSON is never repaired.  While it has
    not expired, every call of the read route answers 500 without a query
    of the store, and the entry is neither deleted nor overwritten. *)
Theorem unparseable_entry_stays (e : ReadEndpoint) (delays : list nat) (w : World)
    (text : string) (expires : nat) :
  cache w !! cache_key e = Some (text, expires) →
  text ≠ EmptyString → JSON_parse text = None →
  now w + sum_list delays < expires →
  calm (length delays) (faults w) = true →
  let rs := (replay (read_handler e) delays w).1 in
  let w' := (replay (read_handler e) delays w).2 in
  Forall (λ r, r = res_status_json 500 (error_body "Internal Server Error")) rs
  ∧ length rs = length delays
  ∧ cache w' = cache w
  ∧ log w' = (log w ++ replicate (length delays) (RedisGet (cache_key e)))%list
  ∧ movies w' = movies w ∧ genres w' = genres w.
Proof.
  revert w. induction delays as [|d delays IH]; intros w Hc Hne Hparse Hexp Hcalm.
  - simpl. by rewrite app_nil_r.
  - cbn [replay]. cbv zeta. cbn [length] in *.
    change (sum_list (d :: delays)) with (d + sum_list delays) in Hexp.
    assert (live (advance d w) (cache_key e) = Some text) as Hlive.
    { unfold live, advance. simpl. rewrite Hc. by rewrite decide_True by lia. }
    rewrite read_handler_body. unfold try_catch.
    rewrite (fetch_unparseable _ _ _ _ _ text); [|done|done|done|].
    2: { by apply (calm_le (S (length delays))); [lia|]. }
    set (w1 := tick _ _).
    assert (calm (length delays) (faults w1) = true) as H3
      by (subst w1; apply (calm_tick _ _ _); exact Hcalm).
    assert (now w1 + sum_list delays < expires) as H4
      by (subst w1; simpl; lia).
    pose proof (IH w1 Hc Hne Hparse H4 H3) as IH'. cbv zeta in IH'.
    destruct (replay (read_handler e) delays w1) as [rs w2].
    cbn [fst snd] in *.
    destruct IH' as (HF & Hlen & Hcache & Hlog & Hm & Hg).
    repeat split; try done.
    + by constructor.
    + cbn [length]. by rewrite Hlen.
    + rewrite Hlog. subst w1. simpl. by rewrite <- app_assoc.
Qed.

(** ** The life of a cache entry *)

(** The world a read route leaves after a miss it could fill. *)
Lemma read_miss_world e w v :
  truthy (live w (cache_key e)) = None → authoritative e w = Some v →
  calm 3 (faults w) = true →
  read_handler e w =
    (res_json v,
     with_cache (<[cache_key e := (JSON_stringify v, now w + 3600)]> (cache w))
       (tick (RedisSetex (cache_key e) 3600 (JSON_stringify v))
          (tick (store_query e) (tick (RedisGet (cache_key e)) w)))).
Proof.
  intros Hmiss Hauth Hcalm. rewrite read_handler_body. unfold try_catch.
  rewrite (fetch_miss _ _ _ _ _ v); [done|done| |done].
  by rewrite !authoritative_tick.
Qed.

(** X5.  Once a read route has filled its key, the same request within the
    next 3600 seconds gets the same payload from the cache: its only call
    is the lookup, the store is not queried, and the entry keeps the
    expiration instant it was written with.  This needs a serialiser whose
    text for the payload is not empty and parses back to it. *)
Theorem read_again_within_ttl (e : ReadEndpoint) (w : World) (v : json) (d : nat) :
  truthy (live w (cache_key e)) = None → authoritative e w = Some v →
  calm 4 (faults w) = true →
  JSON_stringify v ≠ EmptyString → JSON_parse (JSON_stringify v) = Some v →
  d < 3600 →
  let first := read_handler e w in
  let second := read_handler e (advance d first.2) in
  first.1 = res_json v
  ∧ second.1 = res_json v
  ∧ log second.2 = (log first.2 ++ [RedisGet (cache_key e)])%list
  ∧ cache second.2 = cache first.2
  ∧ cache second.2 !! cache_key e = Some (JSON_stringify v, now w + 3600).
Proof.
  intros Hmiss Hauth Hcalm Hne Hparse Hd. cbv zeta.
  rewrite (read_miss_world e w v); [|done|done|by apply (calm_le 4); [lia|]].
  cbn [fst snd].
  rewrite (read_hit e _ (JSON_stringify v) v); [| |done|done|].
  - cbn [fst snd]. repeat split; try done. simpl. apply lookup_insert_eq.
  - unfold live, advance. simpl. rewrite lookup_insert_eq.
    by rewrite decide_True by lia.
  - simpl. revert Hcalm. rewrite !calm_SS.
    by intros [_ [_ [_ H]%andb_true_iff]%andb_true_iff]%andb_true_iff.
Qed.

(** X6.  The expiration is absolute.  3600 seconds or more after a read
    route has filled its key the entry is gone: the same request queries the
    store again and stores the result afresh. *)
Theorem read_again_after_ttl (e : ReadEndpoint) (w : World) (v : json) (d : nat) :
  truthy (live w (cache_key e)) = None → authoritative e w = Some v →
  calm 6 (faults w) = true →
  (3600 ≤ d)%nat →
  let first := read_handler e w in
  let second := read_handler e (advance d first.2) in
  live (advance d first.2) (cache_key e) = None
  ∧ second.1 = res_json v
  ∧ log second.2 = (log first.2 ++ [RedisGet (cache_key e); store_query e;
                      RedisSetex (cache_key e) 3600 (JSON_stringify v)])%list
  ∧ cache second.2 !! cache_key e = Some (JSON_stringify v, now w + d + 3600).
Proof.
  intros Hmiss Hauth Hcalm Hd. cbv zeta.
  rewrite (read_miss_world e w v); [|done|done|by apply (calm_le 6); [lia|]].
  cbn [fst snd].
  match goal with |- live ?x _ = _ ∧ _ => set (w1 := x) end.
  assert (live w1 (cache_key e) = None) as Hgone.
  { subst w1. unfold live, advance. simpl. rewrite lookup_insert_eq.
    by rewrite decide_False by lia. }
  split; [done|].
  rewrite (read_miss_world e w1 v).
  - cbn [fst snd]. split; [done|]. split.
    + subst w1. simpl. by rewrite <- !app_assoc.
    + subst w1. simpl. apply lookup_insert_eq.
  - by rewrite Hgone.
  - subst w1. by destruct e.
  - subst w1. simpl. revert Hcalm. rewrite !calm_SS.
    intros [_ [_ [_ [H1 [H2 H3]%andb_true_iff]%andb_true_iff]%andb_true_iff]%andb_true_iff]%andb_true_iff.
    by rewrite H1, H2.
Qed.

(** ** Writes that find nothing, and what writes leave alone *)

(** X7.  An update or a deletion of an identifier the store does not have
    answers 404 after its one query: there is no fan-out, nothing is
    invalidated, and both stores are as before. *)
Theorem write_of_missing_id (id : string) (w : World) :
  calm 1 (faults w) = true →
  (lookup_movie id w = None →
     (∀ b u, update_of_request b = Some u →
        put_movies_id id b w =
          (res_status_json 404 (error_body "Movie not found"),
           tick (DbFindByIdAndUpdate MovieC id) w))
     ∧ delete_movies_id id w =
         (res_status_json 404 (error_body "Movie not found"),
          tick (DbFindByIdAndDelete MovieC id) w))
  ∧ (lookup_genre id w = None →
     delete_genres_genreId id w =
       (res_status_json 404 (error_body "Genre not found"),
        tick (DbFindByIdAndDelete GenreC id) w)).
Proof.
  intros Hcalm. split.
  - intros Hnone. split.
    + intros b u Hu.
      unfold put_movies_id, try_catch, put_movies_id_body, Movie.findByIdAndUpdate.
      unfold update_of_request in Hu. rewrite Hu. unfold_async.
      rewrite call_eq, Hcalm. simpl.
      change (lookup_movie id (tick _ w)) with (lookup_movie id w).
      by rewrite Hnone.
    + unfold delete_movies_id, try_catch, delete_movies_id_body,
        Movie.findByIdAndDelete. unfold_async.
      rewrite call_eq, Hcalm. simpl.
      change (lookup_movie id (tick _ w)) with (lookup_movie id w).
      by rewrite Hnone.
  - intros Hnone.
    unfold delete_genres_genreId, try_catch, delete_genres_genreId_body,
      Genre.findByIdAndDelete. unfold_async.
    rewrite call_eq, Hcalm. simpl.
    change (lookup_genre id (tick _ w)) with (lookup_genre id w).
    by rewrite Hnone.
Qed.

(** X8.  The only key a write of the movies router ever touches is
    [movies:all]: every other entry, the entries of single movies and the
    lists derived from genres included, is as before, whatever the outcome
    of the request. *)
Theorem movie_writes_touch_movies_all_only (op : MovieWrite) (w : World) (k : string) :
  k ≠ "movies:all" →
  cache (write_handler op w).2 !! k = cache w !! k.
Proof.
  intros Hk. destruct (movie_write_cache op w) as [->| ->]; [done|].
  by apply lookup_delete_ne.
Qed.

(** X9.  The only key a write of the genres router ever touches is the
    entry of the genre itself: [POST /genres] leaves every key but
    [genre:<new id>] as it was, [DELETE /genres/:genreId] every key but
    [genre:<genreId>], the list of its movies [genre:<genreId>:movies]
    included. *)
Theorem genre_writes_touch_own_key_only (w : World) (k : string) :
  (∀ b, k ≠ "genre:" +:+ fresh_oid w →
        cache (post_genres b w).2 !! k = cache w !! k)
  ∧ (∀ id, k ≠ "genre:" +:+ id →
        cache (delete_genres_genreId id w).2 !! k = cache w !! k).
Proof.
  destruct (genre_write_cache w) as [Hp Hd]. split.
  - intros b Hk. destruct (Hp b) as [->|[v ->]]; [done|].
    by apply lookup_insert_ne.
  - intros id Hk. destruct (Hd id) as [->| ->]; [done|].
    by apply lookup_delete_ne.
Qed.

(** X10.  A deletion never maintains the relation.  [DELETE /movies/:id]
    leaves every genre as it was, so a genre that lists the movie lists it
    still; [DELETE /genres/:genreId] leaves every movie as it was, so a
    movie keeps the identifier of the genre. *)
Theorem deletions_keep_references (id : string) (w : World) :
  genres (delete_movies_id id w).2 = genres w
  ∧ movies (delete_genres_genreId id w).2 = movies w.
Proof.
  split.
  - unfold delete_movies_id, try_catch, delete_movies_id_body,
      Movie.findByIdAndDelete. unfold_async.
    step; [|done].
    destruct (lookup_movie id _) as [old|]; simpl; [|done]. by step.
  - unfold delete_genres_genreId, try_catch, delete_genres_genreId_body,
      Genre.findByIdAndDelete. unfold_async.
    step; [|done].
    destruct (lookup_genre id _) as [old|]; simpl; [|done]. by step.
Qed.

Lemma calm_tail n fs : calm (S n) fs = true → calm n (tail fs) = true.
Proof.
  destruct fs as [|b fs]; simpl; [intros _; apply calm_nil'|].
  rewrite calm_cons. by intros [_ ?]%andb_true_iff.
Qed.

(** ** Updates and deletions address one document *)

Lemma find_replace_first_ne {A} (p q : A → bool) (y : A) (l : list A) :
  (∀ x, p x = true → q x = false) → q y = false →
  List.find q (replace_first p y l) = List.find q l.
Proof.
  intros H Hy. induction l as [|x l IH]; simpl; [done|].
  destruct (p x) eqn:Hp; simpl.
  - by rewrite Hy, (H x Hp).
  - by rewrite IH.
Qed.

Lemma find_remove_first_ne {A} (p q : A → bool) (l : list A) :
  (∀ x, p x = true → q x = false) →
  List.find q (remove_first p l) = List.find q l.
Proof.
  intros H. induction l as [|x l IH]; simpl; [done|].
  destruct (p x) eqn:Hp; simpl.
  - by rewrite (H x Hp).
  - by rewrite IH.
Qed.

Lemma length_replace_first {A} (p : A → bool) (y : A) (l : list A) :
  length (replace_first p y l) = length l.
Proof.
  induction l as [|x l IH]; simpl; [done|]. destruct (p x); simpl; by rewrite ?IH.
Qed.

Lemma length_remove_first {A} (p : A → bool) (l : list A) (x : A) :
  List.find p l = Some x → S (length (remove_first p l)) = length l.
Proof.
  induction l as [|y l IH]; simpl; [done|].
  destruct (p y); simpl; [done|]. intros H. by rewrite IH.
Qed.

Lemma find_replace_first_eq {A} (p : A → bool) (y x : A) (l : list A) :
  List.find p l = Some x → p y = true →
  List.find p (replace_first p y l) = Some y.
Proof.
  intros Hl Hy. induction l as [|z l IH]; simpl in *; [done|].
  destruct (p z) eqn:Hz; simpl; [by rewrite Hy|]. rewrite Hz. by apply IH.
Qed.

(** X11.  [PUT /movies/:id] and [DELETE /movies/:id], when they succeed,
    change the addressed movie and no other: every movie with another
    identifier is found as before; the update keeps the number of movies and
    the identifier of the document, the deletion removes one document. *)
Theorem write_addresses_one_movie (id : string) (w : World) :
  (∀ b, status (put_movies_id id b w).1 = 200 →
     let w' := (put_movies_id id b w).2 in
     length (movies w') = length (movies w)
     ∧ (∃ m, lookup_movie id w' = Some m ∧ m_id m = id
             ∧ (put_movies_id id b w).1 = res_json (movie_json m))
     ∧ ∀ id', id' ≠ id → lookup_movie id' w' = lookup_movie id' w)
  ∧ (status (delete_movies_id id w).1 = 200 →
     let w' := (delete_movies_id id w).2 in
     S (length (movies w')) = length (movies w)
     ∧ ∀ id', id' ≠ id → lookup_movie id' w' = lookup_movie id' w).
Proof.
  split.
  - intros b Hst.
    destruct (put_movies_id_updated _ _ _ Hst)
      as (u & old & ids & _ & Hold & _ & _ & -> & ->).
    cbv zeta. unfold lookup_movie. cbn [movies].
    pose proof (lookup_movie_id _ _ _ Hold) as Hid.
    split; [apply length_replace_first|]. split.
    + exists (apply_update u old). split; [|by split].
      apply (find_replace_first_eq _ _ old); [done|].
      by apply bool_decide_eq_true.
    + intros id' Hne. apply find_replace_first_ne.
      * intros x Hx. apply bool_decide_eq_true in Hx. unfold has_id_m.
        apply bool_decide_eq_false. by rewrite Hx.
      * unfold has_id_m. simpl. apply bool_decide_eq_false. by rewrite Hid.
  - intros Hst.
    destruct (delete_movies_id_deleted _ _ Hst) as (old & Hold & _ & _ & ->).
    cbv zeta. unfold lookup_movie. cbn [movies].
    split; [by apply (length_remove_first _ _ old)|].
    intros id' Hne. apply find_remove_first_ne. intros x Hx.
    apply bool_decide_eq_true in Hx. unfold has_id_m.
    apply bool_decide_eq_false. by rewrite Hx.
Qed.

(** ** Updating again and again *)

Lemma put_movies_id_ok id b w u old ids :
  update_of_request b = Some u → lookup_movie id w = Some old →
  in_genres b = Some ids → calm 3 (faults w) = true →
  put_movies_id id b w =
    (res_json (movie_json (apply_update u old)),
     mkWorld (replace_first (has_id_m id) (apply_update u old) (movies w))
       (fan_out ids id (genres w)) (next_oid w)
       (delete "movies:all" (cache w)) (now w)
       (tail (tail (tail (faults w))))
       (log w ++ [DbFindByIdAndUpdate MovieC id; DbUpdateMany GenreC;
                  RedisDel "movies:all"])).
Proof.
  intros Hu Hold Hids Hcalm.
  pose proof (put_movies_id_status _ _ _ _ _ Hu Hold Hcalm) as Hst.
  destruct (put_movies_id_updated _ _ _ Hst)
    as (u' & old' & ids' & Hu' & Hold' & Hids' & _ & Hr & Hw).
  rewrite Hu in Hu'. rewrite Hold in Hold'. rewrite Hids in Hids'.
  injection Hu' as <-. injection Hold' as <-. injection Hids' as <-.
  rewrite <- Hr, <- Hw. by destruct (put_movies_id id b w).
Qed.

(** X12.  Every successful [PUT /movies/:id] appends the identifier once
    more.  After [n] updates of a movie with the same body, each genre named
    in the body has [n] more copies of the identifier at the end of its
    list, and every other genre is unchanged. *)
Theorem repeated_update_appends (id : string) (b : json) (u : MovieUpdate)
    (ids : list oid) (delays : list nat) (w : World) (old : MovieDoc) :
  update_of_request b = Some u → in_genres b = Some ids →
  lookup_movie id w = Some old →
  calm (3 * length delays) (faults w) = true →
  let rs := (replay (put_movies_id id b) delays w).1 in
  let w' := (replay (put_movies_id id b) delays w).2 in
  Forall (λ r, status r = 200) rs
  ∧ length rs = length delays
  ∧ length (genres w') = length (genres w)
  ∧ ∀ (i : nat) g, genres w !! i = Some g →
      genres w' !! i =
        Some (if bool_decide (g_id g ∈ ids)
              then mkGenre (g_id g) (g_name g)
                     (g_movies g ++ replicate (length delays) id)%list
              else g).
Proof.
  intros Hu Hids. revert w old.
  induction delays as [|d delays IH]; intros w old Hold Hcalm.
  - simpl. repeat split; try done. intros i g Hg. rewrite Hg. f_equal.
    destruct (bool_decide _); [|done]. rewrite app_nil_r. by destruct g.
  - assert (3 * length (d :: delays) = S (S (S (3 * length delays)))) as Heq
      by (simpl; lia).
    rewrite Heq in Hcalm. clear Heq.
    cbn [replay]. cbv zeta.
    rewrite (put_movies_id_ok id b (advance d w) u old ids);
      [|done|done|done|by apply (calm_le (S (S (S (3 * length delays))))); [lia|]].
    set (w1 := mkWorld _ _ _ _ _ _ _).
    pose proof (lookup_movie_id _ _ _ Hold) as Hid.
    assert (lookup_movie id w1 = Some (apply_update u old)) as H1.
    { subst w1. unfold lookup_movie. cbn [movies].
      apply (find_replace_first_eq _ _ old); [done|].
      by apply bool_decide_eq_true. }
    assert (calm (3 * length delays) (faults w1) = true) as H2.
    { subst w1. simpl. by do 3 apply calm_tail. }
    pose proof (IH w1 _ H1 H2) as IH'. cbv zeta in IH'.
    destruct (replay (put_movies_id id b) delays w1) as [rs w2].
    cbn [fst snd] in *.
    destruct IH' as (HF & Hlen & Hlg & Hl).
    split; [by constructor|]. split; [cbn [length]; by rewrite Hlen|].
    split; [rewrite Hlg; subst w1; simpl; unfold fan_out; by rewrite length_fmap|].
    intros i g Hg.
    rewrite (Hl i _ (fan_out_lookup ids id _ i g Hg)).
    f_equal. destruct (bool_decide (g_id g ∈ ids)) eqn:Hin; simpl.
    + rewrite Hin. f_equal. by rewrite <- app_assoc.
    + by rewrite Hin.
Qed.

(** ** Mounting the two routers *)

(** X13.  No request is served by both routers, so the order in which the
    application mounts them does not matter: the route is the same with the
    genres router first. *)
Theorem routers_are_disjoint (req : Request) :
  (moviesRouter JSON_parse JSON_stringify req = None
   ∨ genresRouter JSON_parse JSON_stringify req = None)
  ∧ route req =
      match genresRouter JSON_parse JSON_stringify req with
      | Some h => Some h
      | None => moviesRouter JSON_parse JSON_stringify req
      end.
Proof.
  unfold route, moviesRouter, genresRouter.
  destruct req as [m p b]. simpl.
  destruct m, p as [|p1 [|p2 [|p3 [|p4 p]]]]; simpl;
    repeat case_decide; simplify_eq; split; auto.
Qed.

(** ** Creating a movie, then deleting it *)

Lemma post_movies_ok b w doc ids :
  movie_of_request b = Some doc → in_genres b = Some ids →
  calm 3 (faults w) = true →
  post_movies b w =
    (res_status_json 201
       (message_body "Movie Created" [("movie", movie_json (doc (fresh_oid w)))]),
     mkWorld (movies w ++ [doc (fresh_oid w)])
       (fan_out ids (fresh_oid w) (genres w)) (S (next_oid w))
       (delete "movies:all" (cache w)) (now w)
       (tail (tail (tail (faults w))))
       (log w ++ [DbCreate MovieC; DbUpdateMany GenreC; RedisDel "movies:all"])).
Proof.
  intros Hdoc Hids Hcalm.
  pose proof (post_movies_status _ _ _ Hdoc Hcalm) as Hst.
  destruct (post_movies_created _ _ Hst)
    as (doc' & ids' & Hdoc' & Hids' & _ & Hr & Hw).
  rewrite Hdoc in Hdoc'. rewrite Hids in Hids'.
  injection Hdoc' as <-. injection Hids' as <-.
  rewrite (validate_movie_id _ _ _ _ _ _ _ (fresh_oid w) Hdoc) in Hw.
  rewrite <- Hr, <- Hw. by destruct (post_movies b w).
Qed.

Lemma delete_movies_id_ok id w old :
  lookup_movie id w = Some old → calm 2 (faults w) = true →
  delete_movies_id id w =
    (res_json (message_body "Movie deleted" []),
     mkWorld (remove_first (has_id_m id) (movies w)) (genres w) (next_oid w)
       (delete "movies:all" (cache w)) (now w) (tail (tail (faults w)))
       (log w ++ [DbFindByIdAndDelete MovieC id; RedisDel "movies:all"])).
Proof.
  intros Hold Hcalm.
  pose proof (delete_movies_id_status _ _ _ Hold Hcalm) as Hst.
  destruct (delete_movies_id_deleted _ _ Hst) as (old' & _ & _ & Hr & Hw).
  rewrite <- Hr, <- Hw. by destruct (delete_movies_id id w).
Qed.

(** X14.  [POST /movies] followed by [DELETE /movies/:id] of the movie it
    created puts the movies of the store back as they were, and leaves in
    every genre named in the request the identifier of a movie that is no
    longer there. *)
Theorem create_then_delete_movie (b : json) (w : World)
    (doc : oid → MovieDoc) (ids : list oid) :
  movie_of_request b = Some doc → in_genres b = Some ids →
  lookup_movie (fresh_oid w) w = None →
  calm 5 (faults w) = true →
  let id := fresh_oid w in
  let created := post_movies b w in
  let deleted := delete_movies_id id created.2 in
  status created.1 = 201
  ∧ lookup_movie id created.2 = Some (doc id)
  ∧ status deleted.1 = 200
  ∧ movies deleted.2 = movies w
  ∧ lookup_movie id deleted.2 = None
  ∧ genres deleted.2 = fan_out ids id (genres w)
  ∧ ∀ (i : nat) g, genres w !! i = Some g → g_id g ∈ ids →
      genres deleted.2 !! i
      = Some (mkGenre (g_id g) (g_name g) (g_movies g ++ [id])%list).
Proof.
  intros Hdoc Hids Hfresh Hcalm. cbv zeta.
  rewrite (post_movies_ok b w doc ids); [|done|done|by apply (calm_le 5); [lia|]].
  cbn [fst snd].
  set (w1 := mkWorld _ _ _ _ _ _ _).
  pose proof (validate_movie_id _ _ _ _ _ _ _ (fresh_oid w) Hdoc) as Hid.
  assert (has_id_m (fresh_oid w) (doc (fresh_oid w)) = true) as Hp
    by (by apply bool_decide_eq_true).
  assert (lookup_movie (fresh_oid w) w1 = Some (doc (fresh_oid w))) as H1
    by (by apply find_snoc).
  rewrite (delete_movies_id_ok _ w1 _ H1).
  2: { subst w1. simpl. by do 3 apply calm_tail. }
  cbn [fst snd movies genres].
  assert (remove_first (has_id_m (fresh_oid w)) (movies w1) = movies w) as Hrem
    by (by apply remove_first_snoc).
  repeat split; try done.
  - unfold lookup_movie. cbn [movies]. by rewrite Hrem.
  - intros i g Hg Hin. subst w1. cbn [genres].
    rewrite (fan_out_lookup _ _ _ _ _ Hg). by rewrite bool_decide_eq_true_2.
Qed.

(** ** What the schemas require *)

(** X15.  [name], [director] and [imbdrating] are the required paths of a
    movie and [name] that of a genre: a creation whose body lacks one of
    them is answered 400 "Invalid data" before any call, so that nothing is
    stored, cached or logged.  The other paths are optional: a body with
    these three alone creates a movie with no actor, no image and no
    genre. *)
Theorem required_paths (w : World) (b : json) :
  (prop "name" b = None ∨ prop "director" b = None ∨ prop "imbdrating" b = None →
     post_movies b w = (res_status_json 400 (error_body "Invalid data"), w))
  ∧ (prop "name" b = None →
     post_genres b w = (res_status_json 400 (error_body "Invalid data"), w))
  ∧ (∀ n d r,
       n ≠ EmptyString → d ≠ EmptyString → r ≠ EmptyString →
       prop "name" b = Some (JStr n) → prop "director" b = Some (JStr d) →
       prop "imbdrating" b = Some (JStr r) →
       prop "actors" b = None → prop "image" b = None → prop "genres" b = None →
       calm 3 (faults w) = true →
       (post_movies b w).1 =
         res_status_json 201
           (message_body "Movie Created"
              [("movie", movie_json (mkMovie (fresh_oid w) (Some n) (Some d) []
                                       (Some r) None []))])
       ∧ movies (post_movies b w).2 =
           (movies w ++ [mkMovie (fresh_oid w) (Some n) (Some d) [] (Some r) None []])%list
       ∧ genres (post_movies b w).2 = genres w).
Proof.
  split; [|split].
  - intros H. unfold post_movies, try_catch, post_movies_body, Movie.create,
      validate_movie.
    destruct H as [-> | [-> | ->]]; simpl; try done.
    + by destruct (path_scalar (prop "name" b) ≫= required).
    + destruct (path_scalar (prop "name" b) ≫= required); simpl; [|done].
      destruct (path_scalar (prop "director" b) ≫= required); simpl; [|done].
      by destruct (path_array required_String (prop "actors" b)).
  - intros H. unfold post_genres, try_catch, post_genres_body, Genre.create,
      validate_genre. by rewrite H.
  - intros n d r Hn Hd Hr Hpn Hpd Hpr Hpa Hpi Hpg Hcalm.
    assert (movie_of_request b
            = Some (λ id, mkMovie id (Some n) (Some d) [] (Some r) None [])) as Hdoc.
    { unfold movie_of_request, validate_movie.
      rewrite Hpn, Hpd, Hpr, Hpa, Hpi, Hpg. simpl.
      by rewrite !decide_False by done. }
    assert (in_genres b = Some []) as Hids
      by (unfold in_genres; by rewrite Hpg).
    rewrite (post_movies_ok b w _ [] Hdoc Hids Hcalm). cbn [fst snd movies genres].
    repeat split; try done.
    unfold fan_out. rewrite <- (list_fmap_id (genres w)) at 2.
    apply list_fmap_ext. intros i g _.
    case_bool_decide as Hin; [by inversion Hin|done].
Qed.

(** ** The order of the calls of a write *)

Ltac trace_leaf :=
  first
    [ exists []; split; [by rewrite app_nil_r|by eexists]
    | eexists; split; [simpl; rewrite <- ?app_assoc; reflexivity|by eexists] ].

(** X16.  A write handler calls the store first and the cache last, and
    stops at the first call that throws or finds nothing: whatever the
    outcome, the calls it has made are a beginning of its full sequence
    (create, fan-out, delete [movies:all]; update, fan-out, delete
    [movies:all]; delete, delete [movies:all]; create, set [genre:<id>] for
    3600 seconds; delete, delete [genre:<id>]). *)
Theorem write_call_order (w : World) :
  (∀ b, ∃ l, log (post_movies b w).2 = (log w ++ l)%list
     ∧ l `prefix_of` [DbCreate MovieC; DbUpdateMany GenreC; RedisDel "movies:all"])
  ∧ (∀ id b, ∃ l, log (put_movies_id id b w).2 = (log w ++ l)%list
     ∧ l `prefix_of` [DbFindByIdAndUpdate MovieC id; DbUpdateMany GenreC;
                      RedisDel "movies:all"])
  ∧ (∀ id, ∃ l, log (delete_movies_id id w).2 = (log w ++ l)%list
     ∧ l `prefix_of` [DbFindByIdAndDelete MovieC id; RedisDel "movies:all"])
  ∧ (∀ b, ∃ l s, log (post_genres b w).2 = (log w ++ l)%list
     ∧ l `prefix_of`
         [DbCreate GenreC;
          RedisSetex ("genre:" +:+ fresh_oid w) 3600
            (JSON_stringify (genre_json (mkGenre (fresh_oid w) s [])))])
  ∧ (∀ id, ∃ l, log (delete_genres_genreId id w).2 = (log w ++ l)%list
     ∧ l `prefix_of` [DbFindByIdAndDelete GenreC id; RedisDel ("genre:" +:+ id)]).
Proof.
  repeat split.
  - intros b. unfold post_movies, try_catch, post_movies_body, Movie.create.
    destruct (validate_movie _ _ _ _ _ _) as [doc|] eqn:Hv; [|trace_leaf].
    destruct (validate_movie_genres _ _ _ _ _ _ _ Hv) as (ids & Hids & _).
    unfold Genre.updateMany_in_push. rewrite Hids. unfold_async.
    step; [|trace_leaf]. step; [|trace_leaf]. step; trace_leaf.
  - intros id b.
    unfold put_movies_id, try_catch, put_movies_id_body, Movie.findByIdAndUpdate.
    destruct (cast_movie_update _ _ _ _ _ _) as [u|] eqn:Hu; [|trace_leaf].
    destruct (cast_movie_update_genres _ _ _ _ _ _ _ Hu) as (ids & Hids).
    unfold Genre.updateMany_in_push. rewrite Hids. unfold_async.
    step; [|trace_leaf].
    destruct (lookup_movie id _) as [old|]; simpl; [|trace_leaf].
    step; [|trace_leaf]. step; trace_leaf.
  - intros id. unfold delete_movies_id, try_catch, delete_movies_id_body,
      Movie.findByIdAndDelete. unfold_async.
    step; [|trace_leaf].
    destruct (lookup_movie id _) as [old|]; simpl; [|trace_leaf]. step; trace_leaf.
  - intros b. unfold post_genres, try_catch, post_genres_body, Genre.create.
    destruct (validate_genre _) as [doc|] eqn:Hv.
    2: { exists [], EmptyString. split; [by rewrite app_nil_r|by eexists]. }
    destruct (validate_genre_inv _ _ Hv) as (s & Hs & ->). unfold_async.
    step; [|exists [DbCreate GenreC], s; split; [done|by eexists]].
    step; eexists _, s; (split; [simpl; rewrite <- ?app_assoc; reflexivity|by eexists]).
  - intros id. unfold delete_genres_genreId, try_catch, delete_genres_genreId_body,
      Genre.findByIdAndDelete. unfold_async.
    step; [|trace_leaf].
    destruct (lookup_genre id _) as [old|]; simpl; [|trace_leaf]. step; trace_leaf.
Qed.

(** ** The cache in the worlds the application can be in *)

Lemma genre_write_step w :
  (∀ b, now (post_genres b w).2 = now w
        ∧ (cache (post_genres b w).2 = cache w
           ∨ ∃ k v, cache (post_genres b w).2
                    = <[k := (JSON_stringify v, now w + 3600)]> (cache w)))
  ∧ (∀ id, now (delete_genres_genreId id w).2 = now w
        ∧ (cache (delete_genres_genreId id w).2 = cache w
           ∨ cache (delete_genres_genreId id w).2 = delete ("genre:" +:+ id) (cache w))).
Proof.
  split.
  - intros b. unfold post_genres, try_catch, post_genres_body, Genre.create.
    destruct (validate_genre _) as [doc|] eqn:Hv; [|by split; [|left]].
    destruct (validate_genre_inv _ _ Hv) as (s & Hs & ->). unfold_async.
    step; [|by split; [|left]].
    step; (split; [done|]); [right; by eexists _, _|by left].
  - intros id. unfold delete_genres_genreId, try_catch, delete_genres_genreId_body,
      Genre.findByIdAndDelete. unfold_async.
    step; [|by split; [|left]].
    destruct (lookup_genre id _) as [old|]; simpl; [|by split; [|left]].
    step; (split; [done|]); [by right|by left].
Qed.

(** What one request can do to the cache: nothing, one deletion, or one
    entry written for 3600 seconds; the clock is not touched. *)
Lemma app_cache_step req w :
  now (app req w).2 = now w
  ∧ (cache (app req w).2 = cache w
     ∨ (∃ k, cache (app req w).2 = delete k (cache w))
     ∨ ∃ k v, cache (app req w).2
              = <[k := (JSON_stringify v, now w + 3600)]> (cache w)).
Proof.
  assert (∀ e, now (read_handler e w).2 = now w
               ∧ (cache (read_handler e w).2 = cache w
                  ∨ (∃ k, cache (read_handler e w).2 = delete k (cache w))
                  ∨ ∃ k v, cache (read_handler e w).2
                           = <[k := (JSON_stringify v, now w + 3600)]> (cache w)))
    as Hread.
  { intros e. rewrite read_handler_body.
    pose proof (fetch_trace (cache_key e) (store_query e) (authoritative e)
                  (not_found_response e) w) as H. cbv zeta in H.
    unfold try_catch. destruct (fetch_ _ _ _ _ w) as [[r|err] w']; simpl in *;
      destruct H as (_ & _ & _ & Hn & [[_ Hc]|[[_ Hc]|(v & _ & [Hc|Hc])]]);
      (split; [done|]); try (by left); right; right; by exists (cache_key e), v. }
  assert (∀ op, now (write_handler op w).2 = now w
               ∧ (cache (write_handler op w).2 = cache w
                  ∨ (∃ k, cache (write_handler op w).2 = delete k (cache w))
                  ∨ ∃ k v, cache (write_handler op w).2
                           = <[k := (JSON_stringify v, now w + 3600)]> (cache w)))
    as Hwrite.
  { intros op. split; [apply movie_write_now|].
    destruct (movie_write_cache op w) as [H|H]; [by left|right; left; by eexists]. }
  destruct (genre_write_step w) as [Hpost Hdel].
  unfold app, route, moviesRouter, genresRouter.
  destruct req as [m p b]. simpl.
  destruct m, p as [|p1 [|p2 [|p3 [|p4 p]]]]; simpl;
    repeat case_decide; try (by split; [|left]).
  - apply (Hread AllMovies).
  - apply (Hread AllGenres).
  - apply (Hread AllGenresWithMovies).
  - apply (Hread (OneMovie p2)).
  - apply (Hread (MoviesOfGenre p2)).
  - apply (Hwrite (CreateMovie b)).
  - destruct (Hpost b) as [Hn [Hc|Hc]]; (split; [done|]); [by left|by right; right].
  - apply (Hwrite (UpdateMovie p2 b)).
  - apply (Hwrite (DeleteMovie p2)).
  - destruct (Hdel p2) as [Hn [Hc|Hc]]; (split; [done|]);
      [by left|right; left; by eexists].
Qed.

Lemma reachable_cache w :
  reachable JSON_parse JSON_stringify w → cache_well_formed JSON_stringify w.
Proof.
  induction 1 as [|w d fs req _ IH]; intros k text expires.
  - cbn [cache]. by rewrite lookup_empty.
  - set (w0 := with_faults fs (advance d w)).
    destruct (app_cache_step req w0) as (Hnow & Hcache).
    rewrite Hnow.
    assert (∀ (k text : string) (expires : nat),
              cache w0 !! k = Some (text, expires) →
              (expires ≤ now w0 + 3600)%nat ∧ ∃ v, text = JSON_stringify v) as IH0.
    { intros k' t' e' H'. destruct (IH k' t' e' H') as [Hle Hv].
      split; [subst w0; simpl; lia|done]. }
    destruct Hcache as [-> |[[k' ->]|(k' & v & ->)]].
    + apply IH0.
    + rewrite lookup_delete. case_decide; [done|]. apply IH0.
    + rewrite lookup_insert. case_decide.
      * intros [= <- <-]. split; [done|by exists v].
      * apply IH0.
Qed.

(** X17.  In every world the application can be in, whatever requests,
    delays and failures came before, every cache entry is the serialisation
    of some value and expires within the next 3600 seconds: nothing served
    from the cache is more than one hour old. *)
Theorem cache_entries_expire_within_ttl (w : World) (k text : string) (expires : nat) :
  reachable JSON_parse JSON_stringify w →
  cache w !! k = Some (text, expires) →
  (expires ≤ now w + 3600)%nat
  ∧ (∃ v, text = JSON_stringify v)
  ∧ live (advance 3600 w) k = None.
Proof.
  intros Hr Hk. destruct (reachable_cache w Hr k text expires Hk) as [Hle Hv].
  split; [done|]. split; [done|]. unfold live, advance. simpl. rewrite Hk.
  by rewrite decide_False by lia.
Qed.

(** With a serialiser whose texts are never empty and parse back, the
    application never leaves in the cache a text its readers cannot use: in
    every world it can be in, a read route whose calls do not throw answers
    200, or 404 for an identifier the store does not have, and never 500. *)
Lemma reachable_reads_succeed (e : ReadEndpoint) (w : World) :
  (∀ v, JSON_stringify v ≠ EmptyString ∧ JSON_parse (JSON_stringify v) = Some v) →
  reachable JSON_parse JSON_stringify w →
  calm 3 (faults w) = true →
  status (read_handler e w).1 = 200
  ∨ (status (read_handler e w).1 = 404 ∧ authoritative e w = None).
Proof.
  intros Hrt Hr Hcalm.
  destruct (truthy (live w (cache_key e))) as [text|] eqn:Ht.
  - assert (live w (cache_key e) = Some text ∧ text ≠ EmptyString) as [Hlive Hne].
    { unfold truthy in Ht. destruct (live w (cache_key e)) as [t|]; [|done].
      case_decide; [done|]. by injection Ht as ->. }
    assert (∃ v, text = JSON_stringify v) as [v ->].
    { unfold live in Hlive.
      destruct (cache w !! cache_key e) as [[t x]|] eqn:Hc; [|done].
      case_decide; [|done]. injection Hlive as ->.
      by destruct (reachable_cache w Hr _ _ _ Hc). }
    left. rewrite (read_hit e w (JSON_stringify v) v); [done|done|done|apply Hrt|].
    by apply (calm_le 3); [lia|].
  - destruct (authoritative e w) as [v|] eqn:Hauth.
    + left. by rewrite (read_miss_world e w v).
    + right. rewrite (read_not_found e w); [|done|done|by apply (calm_le 3); [lia|]].
      split; [|done]. by destruct e.
Qed.

End Protocol.

(** * The protocol on concrete runs *)

(** C2.  The cached snapshot of a movie outlives an update and a deletion of
    that movie.  [GET /movies/0] caches the movie; [PUT /movies/0] renames
    it and answers 200 with the new document; [GET /movies/0] then answers
    the document as it was before the update.  Likewise after
    [DELETE /movies/0] has answered 200: the deleted movie is still served.
    Neither handler touches the key [movie:0]. *)
Theorem C2_stale_movie_after_write :
  let w1 := (Run.get_movies_id "0" one_movie).2 in
  let updated := put_movies_id "0" rename_body w1 in
  let deleted := delete_movies_id "0" w1 in
  (Run.get_movies_id "0" one_movie).1 = res_json (movie_json alien)
  ∧ updated.1 = res_json (movie_json aliens)
  ∧ lookup_movie "0" updated.2 = Some aliens
  ∧ (Run.get_movies_id "0" updated.2).1 = res_json (movie_json alien)
  ∧ cache updated.2 !! "movie:0" = cache w1 !! "movie:0"
  ∧ deleted.1 = res_json (message_body "Movie deleted" [])
  ∧ lookup_movie "0" deleted.2 = None
  ∧ (Run.get_movies_id "0" deleted.2).1 = res_json (movie_json alien)
  ∧ cache deleted.2 !! "movie:0" = cache w1 !! "movie:0".
Proof. by vm_compute. Qed.

(** C4.  Neither write of the genres router invalidates a collection key.
    With the list of genres cached, [POST /genres] answers 201 and the
    cached list, served by [GET /genres] and [GET /genres-movies], still
    lacks the new genre; with the list cached, [DELETE /genres/0] answers
    200 and the cached list still has the deleted genre. *)
Theorem C4_stale_genre_lists :
  let w1 := (Run.get_genres_movies (Run.get_genres empty_world).2).2 in
  let created := Run.post_genres drama_body w1 in
  let w2 := (Run.get_genres_movies (Run.get_genres one_genre).2).2 in
  let deleted := delete_genres_genreId "0" w2 in
  status created.1 = 201
  ∧ genres created.2 = [drama]
  ∧ (Run.get_genres created.2).1 = res_json (JArr [])
  ∧ (Run.get_genres_movies created.2).1 = res_json (JArr [])
  ∧ cache created.2 !! "genres:all" = cache w1 !! "genres:all"
  ∧ cache created.2 !! "genres:all-with-movies" = cache w1 !! "genres:all-with-movies"
  ∧ status deleted.1 = 200
  ∧ genres deleted.2 = []
  ∧ (Run.get_genres deleted.2).1 = res_json (JArr [genre_json drama])
  ∧ (Run.get_genres_movies deleted.2).1 = res_json (JArr [genre_json drama])
  ∧ cache deleted.2 !! "genres:all" = cache w2 !! "genres:all"
  ∧ cache deleted.2 !! "genres:all-with-movies" = cache w2 !! "genres:all-with-movies".
Proof. by vm_compute. Qed.


(** C7, as stated, fails on the create routes: with a valid payload, a
    failure of the store on [Movie.create], a failure of the store on the
    fan-out, and a failure of the cache on [setex] in [POST /genres] are all
    answered 400 "Invalid data", not 500. *)
Lemma C7_counterexample :
  let post_movie := mkRequest POST ["movies"] (blade_runner_body []) in
  let post_genre := mkRequest POST ["genres"] drama_body in
  (λ doc, doc "0") <$> movie_of_request (blade_runner_body []) = Some (blade_runner "0" [])
  ∧ (Run.app post_movie (with_script [true] empty_world)).1
    = res_status_json 400 (error_body "Invalid data")
  ∧ (Run.app post_movie (with_script [false; true] empty_world)).1
    = res_status_json 400 (error_body "Invalid data")
  ∧ (Run.app post_genre (with_script [false; true] empty_world)).1
    = res_status_json 400 (error_body "Invalid data")
  ∧ status (Run.app post_movie (with_script [true] empty_world)).1 ≠ 500.
Proof. by vm_compute. Qed.


(** ** The theorems at concrete inputs *)

Lemma C1_witness :
  (∃ w', Run.read_handler AllMovies cached_empty_list = (res_json (JArr []), w')
     ∧ log w' = [RedisGet "movies:all"]
     ∧ movies w' = [alien] ∧ genres w' = [] ∧ cache w' = cache cached_empty_list)
  ∧ (∃ w', Run.read_handler (OneMovie "0") one_movie = (res_json (movie_json alien), w')
     ∧ cache w' = <["movie:0" := (JSON.stringify (movie_json alien), 3600)]> ∅
     ∧ live w' "movie:0" = Some (JSON.stringify (movie_json alien))
     ∧ log w' = [RedisGet "movie:0"; DbFindById MovieC "0";
                 RedisSetex "movie:0" 3600 (JSON.stringify (movie_json alien))]
     ∧ movies w' = [alien] ∧ genres w' = []).
Proof.
  split.
  - apply (proj1 (C1_read_through JSON.parse JSON.stringify AllMovies cached_empty_list)
             "[]" (JArr [])); by vm_compute.
  - apply (proj2 (C1_read_through JSON.parse JSON.stringify (OneMovie "0") one_movie)
             (movie_json alien)); by vm_compute.
Defined.



Lemma C6_witness :
  let w := mkWorld [blade_runner "1" ["5"]]
             [mkGenre "0" "Drama" ["1"]; mkGenre "5" "Comedy" ["1"]] 2 ∅ 0 [] [] in
  let b := blade_runner_body [JStr "0"] in
  in_genres b = Some ["0"]
  ∧ (status (post_movies b w).1 = 201
     ∧ genres (post_movies b w).2 !! 0 = Some (mkGenre "0" "Drama" ["1"; "2"])
     ∧ genres (post_movies b w).2 !! 1 = Some (mkGenre "5" "Comedy" ["1"]))
  ∧ (status (put_movies_id "1" b w).1 = 200
     ∧ genres (put_movies_id "1" b w).2 !! 0 = Some (mkGenre "0" "Drama" ["1"; "1"])
     ∧ genres (put_movies_id "1" b w).2 !! 1 = Some (mkGenre "5" "Comedy" ["1"])).
Proof.
  intros w b.
  destruct (C6_genre_fan_out w b ["0"] eq_refl) as [Hpost Hput].
  split; [reflexivity|]. split.
  - assert (status (post_movies b w).1 = 201) as Hs by (by vm_compute).
    destruct (Hpost Hs) as (_ & _ & Hl).
    split; [exact Hs|]. split.
    + exact (Hl 0 (mkGenre "0" "Drama" ["1"]) eq_refl).
    + exact (Hl 1 (mkGenre "5" "Comedy" ["1"]) eq_refl).
  - assert (status (put_movies_id "1" b w).1 = 200) as Hs by (by vm_compute).
    destruct (Hput "1" Hs) as (_ & Hl).
    split; [exact Hs|]. split.
    + exact (Hl 0 (mkGenre "0" "Drama" ["1"]) eq_refl).
    + exact (Hl 1 (mkGenre "5" "Comedy" ["1"]) eq_refl).
Defined.

Lemma C7_witness :
  let post_movie := mkRequest POST ["movies"] (blade_runner_body []) in
  let get_all := mkRequest GET ["movies"] JNull in
  let w := with_script [true] empty_world in
  is_create post_movie = true
  ∧ Run.app post_movie w
    = (res_status_json 400 (error_body "Invalid data"), tick (DbCreate MovieC) w)
  ∧ Run.app get_all w
    = (res_status_json 500 (error_body "Internal Server Error"),
       tick (RedisGet "movies:all") w).
Proof.
  intros post_movie get_all w.
  destruct (C7_failure_codes JSON.parse JSON.stringify post_movie w) as [Honly Hpost].
  destruct (C7_failure_codes JSON.parse JSON.stringify get_all w) as [_ Hget].
  split; [apply Honly; by vm_compute|]. split.
  - exact (Hpost (post_movies_body (blade_runner_body [])) caught_400 DriverError
             (tick (DbCreate MovieC) w) eq_refl eq_refl).
  - exact (Hget (get_movies_body JSON.parse JSON.stringify) caught_500 DriverError
             (tick (RedisGet "movies:all") w) eq_refl eq_refl).
Defined.


Lemma C9_witness :
  let b := blade_runner_body [JStr "0"] in
  let w := mkWorld [] [drama] 1 {["movies:all" := ("[]", 3600)]} 0 [false; true] [] in
  let w' := (post_movies b w).2 in
  (post_movies b w).1 = res_status_json 400 (error_body "Invalid data")
  ∧ movies w' = [blade_runner "1" ["0"]]
  ∧ genres w' = [drama]
  ∧ live w' "movies:all" = Some "[]"
  ∧ (∃ w'', Run.get_movies (advance 3599 w') = (res_json (JArr []), w'')
       ∧ log w'' = [DbCreate MovieC; DbUpdateMany GenreC; RedisGet "movies:all"])
  ∧ (Run.get_movies (advance 3600 w')).1
    = res_json (JArr [movie_json (blade_runner "1" ["0"])]).
Proof.
  intros b w w'.
  destruct (C9_create_then_fan_out_failure JSON.parse JSON.stringify b w
              (λ id, blade_runner id ["0"]) [] eq_refl eq_refl)
    as (Hr & Hm & Hc & Hl & Hhit & Hexp).
  split; [exact Hr|]. split; [exact Hm|]. split; [reflexivity|].
  split; [reflexivity|]. split.
  - destruct (Hhit 3599 "[]" (JArr []) eq_refl) as (w'' & Hrun & Hlog & _);
      [discriminate|reflexivity|reflexivity|].
    exists w''. split; [exact Hrun|]. rewrite Hlog, Hl. reflexivity.
  - exact (Hexp 3600 eq_refl eq_refl).
Defined.

Lemma C10_witness :
  prop "name" drama_body = prop "name" drama_body_with_movies
  ∧ Run.post_genres drama_body empty_world
    = Run.post_genres drama_body_with_movies empty_world
  ∧ status (Run.post_genres drama_body_with_movies empty_world).1 = 201
  ∧ genres (Run.post_genres drama_body_with_movies empty_world).2 = [drama]
  ∧ cache (Run.post_genres drama_body_with_movies empty_world).2 !! "genre:0"
    = Some (JSON.stringify (genre_json drama), 3600).
Proof.
  destruct (C10_post_genres_reads_name_only JSON.stringify empty_world)
    as (Hname & _ & Hcreated).
  assert (status (Run.post_genres drama_body_with_movies empty_world).1 = 201) as Hs
    by (by vm_compute).
  destruct (Hcreated drama_body_with_movies Hs) as (s & Hname' & Hg & _ & Hc & _).
  injection Hname' as <-.
  split; [reflexivity|]. split; [exact (Hname _ _ eq_refl)|].
  split; [exact Hs|]. split; [exact Hg|exact Hc].
Defined.

(** ** The further theorems at concrete inputs *)

Lemma read_failure_is_500_witness :
  let w := with_script [true] one_movie in
  Run.read_handler AllMovies w
  = (res_status_json 500 (error_body "Internal Server Error"),
     tick (RedisGet "movies:all") w)
  ∧ cache (Run.read_handler AllMovies w).2 = cache w.
Proof.
  intros w.
  destruct (read_failure_is_500 JSON.parse JSON.stringify AllMovies w) as [Hfail Hcache].
  split; [exact (Hfail [] eq_refl)|exact (Hcache eq_refl)].
Defined.

Lemma unparseable_entry_stays_witness :
  let w := mkWorld [alien] [] 1 {["movies:all" := ("not json", 100)]} 0 [] [] in
  JSON.parse "not json" = None
  ∧ (replay (Run.read_handler AllMovies) [0; 10; 50] w).1
    = replicate 3 (res_status_json 500 (error_body "Internal Server Error"))
  ∧ cache (replay (Run.read_handler AllMovies) [0; 10; 50] w).2 = cache w
  ∧ log (replay (Run.read_handler AllMovies) [0; 10; 50] w).2
    = replicate 3 (RedisGet "movies:all").
Proof.
  intros w.
  assert (now w + sum_list [0; 10; 50] < 100) as Hlt by (vm_compute; lia).
  destruct (unparseable_entry_stays JSON.parse JSON.stringify AllMovies [0; 10; 50] w
              "not json" 100 eq_refl) as (_ & _ & Hcache & Hlog & _);
    [discriminate|reflexivity|exact Hlt|reflexivity|].
  split; [reflexivity|]. split; [by vm_compute|]. split; [exact Hcache|exact Hlog].
Defined.

Lemma read_again_within_ttl_witness :
  let first := Run.read_handler (OneMovie "0") one_movie in
  let second := Run.read_handler (OneMovie "0") (advance 3599 first.2) in
  first.1 = res_json (movie_json alien)
  ∧ second.1 = res_json (movie_json alien)
  ∧ log second.2 = (log first.2 ++ [RedisGet "movie:0"])%list
  ∧ cache second.2 = cache first.2
  ∧ cache second.2 !! "movie:0" = Some (JSON.stringify (movie_json alien), 3600).
Proof.
  apply (read_again_within_ttl JSON.parse JSON.stringify (OneMovie "0") one_movie
           (movie_json alien) 3599);
    first [reflexivity | discriminate | lia].
Defined.

Lemma read_again_after_ttl_witness :
  let first := Run.read_handler (OneMovie "0") one_movie in
  let second := Run.read_handler (OneMovie "0") (advance 3600 first.2) in
  live (advance 3600 first.2) "movie:0" = None
  ∧ second.1 = res_json (movie_json alien)
  ∧ log second.2
    = (log first.2 ++ [RedisGet "movie:0"; DbFindById MovieC "0";
         RedisSetex "movie:0" 3600 (JSON.stringify (movie_json alien))])%list
  ∧ cache second.2 !! "movie:0" = Some (JSON.stringify (movie_json alien), 3600 + 3600).
Proof.
  apply (read_again_after_ttl JSON.parse JSON.stringify (OneMovie "0") one_movie
           (movie_json alien) 3600);
    first [reflexivity | lia].
Defined.

Lemma write_of_missing_id_witness :
  lookup_movie "7" one_movie = None
  ∧ put_movies_id "7" rename_body one_movie
    = (res_status_json 404 (error_body "Movie not found"),
       tick (DbFindByIdAndUpdate MovieC "7") one_movie)
  ∧ delete_movies_id "7" one_movie
    = (res_status_json 404 (error_body "Movie not found"),
       tick (DbFindByIdAndDelete MovieC "7") one_movie)
  ∧ delete_genres_genreId "7" one_movie
    = (res_status_json 404 (error_body "Genre not found"),
       tick (DbFindByIdAndDelete GenreC "7") one_movie).
Proof.
  destruct (write_of_missing_id "7" one_movie eq_refl) as [Hmovie Hgenre].
  destruct (Hmovie eq_refl) as [Hput Hdel].
  split; [reflexivity|]. split.
  - exact (Hput rename_body
             (mkUpdate (Some (Some "Aliens")) None None None None None) eq_refl).
  - split; [exact Hdel|exact (Hgenre eq_refl)].
Defined.

Lemma movie_writes_touch_movies_all_only_witness :
  let w := (Run.get_movies_id "0" one_movie).2 in
  "movie:0" ≠ "movies:all"
  ∧ status (write_handler (DeleteMovie "0") w).1 = 200
  ∧ cache (write_handler (DeleteMovie "0") w).2 !! "movie:0" = cache w !! "movie:0".
Proof.
  intros w.
  assert ("movie:0" ≠ "movies:all") as Hne by discriminate.
  split; [exact Hne|]. split; [reflexivity|].
  exact (movie_writes_touch_movies_all_only (DeleteMovie "0") w "movie:0" Hne).
Defined.

Lemma genre_writes_touch_own_key_only_witness :
  let w := (Run.get_genres_genreId_movies "0" (Run.get_genres one_genre).2).2 in
  cache (Run.post_genres drama_body w).2 !! "genres:all" = cache w !! "genres:all"
  ∧ cache (delete_genres_genreId "0" w).2 !! "genre:0:movies"
    = cache w !! "genre:0:movies".
Proof.
  intros w.
  destruct (genre_writes_touch_own_key_only JSON.stringify w "genres:all") as [Hpost _].
  destruct (genre_writes_touch_own_key_only JSON.stringify w "genre:0:movies") as [_ Hdel].
  split.
  - apply (Hpost drama_body). by vm_compute.
  - apply (Hdel "0"). discriminate.
Defined.

Lemma write_addresses_one_movie_witness :
  let w := mkWorld [alien; blade_runner "1" []] [] 2 ∅ 0 [] [] in
  (lookup_movie "0" (put_movies_id "0" rename_body w).2 = Some aliens
   ∧ lookup_movie "1" (put_movies_id "0" rename_body w).2 = Some (blade_runner "1" [])
   ∧ length (movies (put_movies_id "0" rename_body w).2) = 2)
  ∧ (lookup_movie "1" (delete_movies_id "0" w).2 = Some (blade_runner "1" [])
     ∧ S (length (movies (delete_movies_id "0" w).2)) = 2).
Proof.
  intros w.
  destruct (write_addresses_one_movie "0" w) as [Hput Hdel].
  destruct (Hput rename_body eq_refl) as (Hlen & _ & Hother).
  destruct (Hdel eq_refl) as (Hlen' & Hother').
  assert ("1" ≠ "0") as Hne by discriminate.
  split.
  - split; [reflexivity|]. split; [exact (Hother "1" Hne)|exact Hlen].
  - split; [exact (Hother' "1" Hne)|exact Hlen'].
Defined.

Lemma repeated_update_appends_witness :
  let w := mkWorld [blade_runner "1" ["0"]]
             [mkGenre "0" "Drama" ["1"]; mkGenre "5" "Comedy" []] 2 ∅ 0 [] [] in
  let b := blade_runner_body [JStr "0"] in
  let w' := (replay (put_movies_id "1" b) [0; 60; 60] w).2 in
  genres w' !! 0 = Some (mkGenre "0" "Drama" ["1"; "1"; "1"; "1"])
  ∧ genres w' !! 1 = Some (mkGenre "5" "Comedy" []).
Proof.
  intros w b w'.
  assert (update_of_request b
          = Some (mkUpdate (Some (Some "Blade Runner")) (Some (Some "Ridley Scott"))
                    (Some ["Harrison Ford"]) (Some (Some "8")) None (Some ["0"])))
    as Hu by (by vm_compute).
  destruct (repeated_update_appends "1" b _ ["0"] [0; 60; 60] w (blade_runner "1" ["0"])
              Hu eq_refl eq_refl eq_refl) as (_ & _ & _ & Hl).
  split.
  - exact (Hl 0 (mkGenre "0" "Drama" ["1"]) eq_refl).
  - exact (Hl 1 (mkGenre "5" "Comedy" []) eq_refl).
Defined.

Lemma create_then_delete_movie_witness :
  let b := blade_runner_body [JStr "0"] in
  let created := post_movies b one_genre in
  let deleted := delete_movies_id "1" created.2 in
  status created.1 = 201
  ∧ lookup_movie "1" created.2 = Some (blade_runner "1" ["0"])
  ∧ status deleted.1 = 200
  ∧ movies deleted.2 = []
  ∧ lookup_movie "1" deleted.2 = None
  ∧ genres deleted.2 !! 0 = Some (mkGenre "0" "Drama" ["1"]).
Proof.
  intros b created deleted.
  assert (movie_of_request b = Some (λ id, blade_runner id ["0"])) as Hdoc
    by (by vm_compute).
  destruct (create_then_delete_movie b one_genre _ ["0"] Hdoc eq_refl eq_refl eq_refl)
    as (H1 & H2 & H3 & H4 & H5 & _ & H7).
  split; [exact H1|]. split; [exact H2|]. split; [exact H3|].
  split; [exact H4|]. split; [exact H5|].
  apply (H7 0 drama eq_refl). constructor.
Defined.

Lemma required_paths_witness :
  let minimal := JObj [("name", JStr "Alien"); ("director", JStr "Ridley Scott");
                       ("imbdrating", JStr "8.5")] in
  Run.post_genres (JObj []) one_genre
  = (res_status_json 400 (error_body "Invalid data"), one_genre)
  ∧ post_movies drama_body one_genre
    = (res_status_json 400 (error_body "Invalid data"), one_genre)
  ∧ movies (post_movies minimal one_genre).2
    = [mkMovie "1" (Some "Alien") (Some "Ridley Scott") [] (Some "8.5") None []]
  ∧ genres (post_movies minimal one_genre).2 = [drama].
Proof.
  intros minimal.
  destruct (required_paths JSON.stringify one_genre (JObj [])) as (_ & Hgenre & _).
  destruct (required_paths JSON.stringify one_genre drama_body) as (Hmovie & _ & _).
  destruct (required_paths JSON.stringify one_genre minimal) as (_ & _ & Hok).
  split; [exact (Hgenre eq_refl)|].
  split; [exact (Hmovie (or_intror (or_introl eq_refl)))|].
  destruct (Hok "Alien" "Ridley Scott" "8.5") as (_ & Hm & Hg);
    try reflexivity; try discriminate.
  split; [exact Hm|exact Hg].
Defined.

Lemma cache_entries_expire_within_ttl_witness :
  let w := (Run.app (mkRequest GET ["movies"] JNull)
              (with_faults [] (advance 5 empty_world))).2 in
  cache w !! "movies:all" = Some ("[]", 3605)
  ∧ (3605 ≤ now w + 3600)%nat
  ∧ (∃ v, "[]" = JSON.stringify v)
  ∧ live (advance 3600 w) "movies:all" = None.
Proof.
  intros w.
  assert (cache w !! "movies:all" = Some ("[]", 3605)) as Hk by (by vm_compute).
  split; [exact Hk|].
  exact (cache_entries_expire_within_ttl JSON.parse JSON.stringify w "movies:all"
           "[]" 3605
           (reachable_request JSON.parse JSON.stringify _ 5 [] _
              (reachable_start JSON.parse JSON.stringify))
           Hk).
Defined.
